(** * Scoring engine of the assignment-submission system

    A shallow embedding of [plagiarism_detector.py] (class
    [PlagiarismDetector]) and the properties of its scoring pipeline.

    Conventions of the embedding.
    - A Python [str] is a list of characters; a character is a code point
      of the range U+0000..U+00FF, carried by [ascii].  The character
      classes of [str.strip], [str.split], [str.lower] and of the [re]
      escapes [\s] and [\w] are the ones Python uses on that range.
    - A finite Python [float] is represented by the rational it denotes
      ([Q]); rounding of float arithmetic is not modelled.  [nan] is a
      separate value of [float], because [extract_features] produces it.
    - The detector object and the pickle file are an explicit state
      ([world]); a method is a state transformer that either returns or
      raises ([M]).
    - scikit-learn is outside the repository: the fitted estimators and
      their numeric kernels are the variables of section [Detector]. *)

From Stdlib Require Import Ascii String List ZArith QArith Qround Bool Lia Lqa.
Import ListNotations.

Set Implicit Arguments.

(** ** Python strings *)

Module Py.

Definition str := list ascii.

Definition ord (c : ascii) : N := N_of_ascii c.
Definition chr (n : N) : ascii := ascii_of_N n.

Definition in_range (lo hi : N) (c : ascii) : bool :=
  ((lo <=? ord c) && (ord c <=? hi))%N.

Definition is_code (n : N) (c : ascii) : bool := (ord c =? n)%N.

(** [str.isspace] on one character; also the class [\s] of [re]. *)
Definition isspace (c : ascii) : bool :=
  in_range 9 13 c || in_range 28 32 c || is_code 133 c || is_code 160 c.

(** [str.isalnum] on one character. *)
Definition isalnum (c : ascii) : bool :=
  in_range 48 57 c || in_range 65 90 c || in_range 97 122 c
  || is_code 170 c || in_range 178 179 c || is_code 181 c
  || in_range 185 186 c || in_range 188 190 c
  || in_range 192 214 c || in_range 216 246 c || in_range 248 255 c.

(** The class [\w] of [re]: alphanumeric or underscore. *)
Definition is_word (c : ascii) : bool := isalnum c || is_code 95 c.

(** The class [[.,!?;:]]. *)
Definition is_punct (c : ascii) : bool :=
  is_code 46 c || is_code 44 c || is_code 33 c || is_code 63 c
  || is_code 59 c || is_code 58 c.

(** The class [[.!?]]. *)
Definition is_sentence_end (c : ascii) : bool :=
  is_code 46 c || is_code 33 c || is_code 63 c.

(** The class [[^\w\s.,!?;:]] is the complement of [is_kept]. *)
Definition is_kept (c : ascii) : bool := is_word c || isspace c || is_punct c.

(** The replacement character of the whitespace pass. *)
Definition blank : ascii := " "%char.

(** [str.lower] on one character. *)
Definition lower_char (c : ascii) : ascii :=
  if in_range 65 90 c || in_range 192 214 c || in_range 216 222 c
  then chr (ord c + 32) else c.

Definition lower (s : str) : str := map lower_char s.

Fixpoint lstrip (s : str) : str :=
  match s with
  | [] => []
  | c :: s' => if isspace c then lstrip s' else s
  end.

Definition rstrip (s : str) : str := rev (lstrip (rev s)).

(** [s.strip()] *)
Definition strip (s : str) : str := rstrip (lstrip s).

(** [s.split()]: the maximal runs of characters that are not whitespace.
    [cur] is the token being read, last character first. *)
Fixpoint split_from (cur : str) (s : str) : list str :=
  match s with
  | [] => match cur with [] => [] | _ => [rev cur] end
  | c :: s' =>
      if isspace c
      then match cur with
           | [] => split_from [] s'
           | _ => rev cur :: split_from [] s'
           end
      else split_from (c :: cur) s'
  end.

Definition split (s : str) : list str := split_from [] s.

(** [re.sub(cls+, repl, s)] for a character class [cls] and a one-character
    replacement: every maximal run of [cls] becomes [repl].  [in_run] tells
    that the previous character was in the class. *)
Fixpoint re_sub_runs (cls : ascii -> bool) (repl : ascii) (in_run : bool)
         (s : str) : str :=
  match s with
  | [] => []
  | c :: s' =>
      if cls c
      then if in_run then re_sub_runs cls repl true s'
           else repl :: re_sub_runs cls repl true s'
      else c :: re_sub_runs cls repl false s'
  end.

(** [re.sub(cls, '', s)] for a character class [cls]. *)
Definition re_delete (cls : ascii -> bool) (s : str) : str :=
  filter (fun c => negb (cls c)) s.

(** [re.split(cls+, s)]: the segments between the maximal runs of [cls];
    never empty, and empty segments are kept. *)
Fixpoint re_split_runs (cls : ascii -> bool) (in_run : bool) (s : str)
  : list str :=
  match s with
  | [] => [[]]
  | c :: s' =>
      if cls c
      then if in_run then re_split_runs cls true s'
           else [] :: re_split_runs cls true s'
      else match re_split_runs cls false s' with
           | seg :: rest => (c :: seg) :: rest
           | [] => [[c]]
           end
  end.

(** [re.findall(cls, s)] for a character class [cls]. *)
Definition re_findall (cls : ascii -> bool) (s : str) : list str :=
  map (fun c => [c]) (filter cls s).

Definition str_eq_dec : forall a b : str, {a = b} + {a <> b} :=
  list_eq_dec ascii_dec.

(** [len(set(l))] for a list of strings. *)
Definition len_set (l : list str) : nat := length (nodup str_eq_dec l).

(** A literal. *)
Definition lit (s : string) : str := list_ascii_of_string s.

End Py.

Import Py.

(** ** Numbers *)

(** A Python float: [nan], or a finite value given by the rational it
    denotes. *)
Inductive float : Type :=
| nan
| fin (q : Q).

Definition of_nat (n : nat) : Q := inject_Z (Z.of_nat n).

(** [a / b] for two non-negative integers, [b] not zero. *)
Definition div_nat (a b : nat) : Q := Qred (of_nat a / of_nat b).

Definition Qltb (a b : Q) : bool := negb (Qle_bool b a).

(** [min(a, b)] of Python: [a], unless [b < a]. *)
Definition py_min (a b : Q) : Q := if Qltb b a then b else a.

(** [max] of two floats, as [np.max] folds it. *)
Definition Qmaxb (a b : Q) : Q := if Qltb a b then b else a.

(** [round(x, 2)]: the multiple of 1/100 nearest to [x], ties to the even
    one. *)
Definition py_round2 (x : Q) : Q :=
  let y := x * 100 in
  let n := Qfloor y in
  let r := y - inject_Z n in
  let up := if Qltb (1 # 2) r then true
            else if Qltb r (1 # 2) then false
            else Z.odd n in
  Qred (inject_Z (if up then n + 1 else n) / 100).

(** [np.mean] of a list of integers: [nan] on the empty list. *)
Definition np_mean (l : list nat) : float :=
  match l with
  | [] => nan
  | _ => fin (div_nat (list_sum l) (length l))
  end.

(** ** Exceptions and the method monad *)

Inductive exn : Type :=
| ValueError
| IndexError
| NotFittedError
| FileNotFoundError.

Inductive result (A : Type) : Type :=
| Ok (a : A)
| Raise (e : exn).

Arguments Ok {A} a.
Arguments Raise {A} e.

Module Method.

(** A method over a state [W]: it returns or raises, and leaves a state
    behind in both cases. *)
Definition M (W A : Type) : Type := W -> result A * W.

Definition ret {W A} (a : A) : M W A := fun w => (Ok a, w).

Definition raise {W A} (e : exn) : M W A := fun w => (Raise e, w).

Definition bind {W A B} (m : M W A) (k : A -> M W B) : M W B :=
  fun w =>
    match m w with
    | (Ok a, w') => k a w'
    | (Raise e, w') => (Raise e, w')
    end.

(** [try: m  except: h] with a bare [except]. *)
Definition try_except {W A} (m : M W A) (h : M W A) : M W A :=
  fun w =>
    match m w with
    | (Ok a, w') => (Ok a, w')
    | (Raise _, w') => h w'
    end.

(** [try: m  except E: h] for one exception class. *)
Definition try_except_on {W A} (is_e : exn -> bool) (m : M W A) (h : M W A)
  : M W A :=
  fun w =>
    match m w with
    | (Ok a, w') => (Ok a, w')
    | (Raise e, w') => if is_e e then h w' else (Raise e, w')
    end.

(** A computation that does not touch the state. *)
Definition lift {W A} (r : result A) : M W A := fun w => (r, w).

Definition get {W} : M W W := fun w => (Ok w, w).

Definition modify {W} (f : W -> W) : M W unit := fun w => (Ok tt, f w).

End Method.

Import Method.

Declare Scope method_scope.
Delimit Scope method_scope with method.

Notation "x <- m ;; k" := (bind m (fun x => k))
  (at level 61, m at next level, right associativity) : method_scope.
Notation "m ;;; k" := (bind m (fun _ => k))
  (at level 61, right associativity) : method_scope.

(** [l[i]] on a Python list. *)
Definition index {A} (l : list A) (i : nat) : result A :=
  match nth_error l i with
  | Some a => Ok a
  | None => Raise IndexError
  end.

(** [np.max] of a two-dimensional array, given by its rows. *)
Definition np_max (a : list (list Q)) : result Q :=
  match concat a with
  | [] => Raise ValueError
  | x :: xs => Ok (fold_left Qmaxb xs x)
  end.

(** ** The detector *)

Open Scope string_scope.
Open Scope list_scope.

(** The constructor arguments of [TfidfVectorizer]. *)
Record tfidf_params : Type := {
  max_features : nat;
  stop_words : string;
  ngram_range : nat * nat;
  lowercase : bool
}.

Record PlagiarismReport : Type := {
  plagiarism_score : Q;
  similarity_score : Q;
  risk_level : string;
  risk_color : string;
  word_count : nat;
  character_count : nat;
  unique_words : nat;
  recommendations : list string;
  timestamp : string
}.

(** The class [[^\w\s.,!?;:]]. *)
Definition is_special (c : ascii) : bool := negb (is_kept c).

(** [PlagiarismDetector.preprocess_text] *)
Definition preprocess_text (text : str) : str :=
  let text := re_sub_runs isspace blank false (strip text) in
  let text := re_delete is_special text in
  let text := lower text in
  text.

(** [PlagiarismDetector.extract_features]; the array of six floats. *)
Definition extract_features (text : str) : list float :=
  let word_count := length (split text) in
  let char_count := length text in
  let sentence_count := length (re_split_runs is_sentence_end false text) in
  let avg_word_length := np_mean (map (@length ascii) (split text)) in
  let unique_words := len_set (split text) in
  let vocabulary_richness :=
    if (0 <? word_count)%nat then div_nat unique_words word_count else 0 in
  let punctuation_count := length (re_findall is_punct text) in
  let punctuation_density :=
    if (0 <? char_count)%nat then div_nat punctuation_count char_count else 0 in
  [ fin (of_nat word_count); fin (of_nat char_count);
    fin (of_nat sentence_count); avg_word_length;
    fin vocabulary_richness; fin punctuation_density ].

(** [PlagiarismDetector.generate_training_data] *)
Definition generate_training_data : list str * list Z :=
  let original_texts := map lit [
    "Machine learning is a subset of artificial intelligence that focuses on algorithms.";
    "The importance of data preprocessing cannot be overstated in machine learning projects.";
    "Neural networks are inspired by the biological neural networks of animal brains.";
    "Deep learning has revolutionized computer vision and natural language processing.";
    "Support vector machines are effective for classification and regression tasks.";
    "Cross-validation is essential for evaluating machine learning model performance.";
    "Feature engineering plays a crucial role in the success of machine learning models.";
    "Overfitting occurs when a model learns the training data too well.";
    "Regularization techniques help prevent overfitting in machine learning models.";
    "Ensemble methods combine multiple models to improve prediction accuracy." ] in
  let plagiarized_texts := map lit [
    "Machine learning is a part of artificial intelligence that concentrates on algorithms.";
    "The significance of data preprocessing cannot be understated in ML projects.";
    "Neural nets are inspired by the biological neural networks of animal minds.";
    "Deep learning has transformed computer vision and natural language processing.";
    "Support vector machines are useful for classification and regression problems.";
    "Cross validation is essential for evaluating machine learning model performance.";
    "Feature engineering has a crucial role in the success of ML models.";
    "Overfitting happens when a model learns the training data too well.";
    "Regularization methods help prevent overfitting in machine learning models.";
    "Ensemble techniques combine multiple models to improve prediction accuracy." ] in
  let texts := original_texts ++ plagiarized_texts in
  let labels := repeat 0%Z (length original_texts)
                ++ repeat 1%Z (length plagiarized_texts) in
  (texts, labels).

(** [PlagiarismDetector.get_recommendations] *)
Definition get_recommendations (score : Q) : list string :=
  if Qltb score 15 then
    ["Content appears to be original."; "Good academic integrity maintained."]
  else if Qltb score 30 then
    ["Some similarities detected with existing content.";
     "Review citations and references.";
     "Consider paraphrasing similar sections."]
  else if Qltb score 50 then
    ["Significant similarities found.";
     "Manual review recommended.";
     "Check for proper citations and quotations.";
     "Consider rewriting similar sections."]
  else
    ["High plagiarism risk detected.";
     "Immediate manual review required.";
     "Substantial rewriting may be necessary.";
     "Verify all sources are properly cited."].

(** The risk branch of [get_detailed_report]: level and colour. *)
Definition risk_of (plagiarism_score : Q) : string * string :=
  if Qltb plagiarism_score 15 then ("Low", "green")
  else if Qltb plagiarism_score 30 then ("Medium", "yellow")
  else if Qltb plagiarism_score 50 then ("High", "orange")
  else ("Very High", "red").

(** [m[-1:]] and [m[:-1]] *)
Definition slice_last {A} (m : list A) : list A := skipn (length m - 1) m.
Definition slice_init {A} (m : list A) : list A := firstn (length m - 1) m.

Definition is_FileNotFoundError (e : exn) : bool :=
  match e with FileNotFoundError => true | _ => false end.

Section Detector.

(** *** scikit-learn *)

(** An [SVC] estimator, fitted or not. *)
Variable SVC : Type.
(** [SVC(kernel='rbf', probability=True, random_state=42)] *)
Variable svc_new : SVC.
(** [svc.fit(X, y)]: the estimator after fitting. *)
Variable svc_fit : SVC -> list (list float) -> list Z -> SVC.
(** [svc.predict_proba(X)]: one row of class probabilities per sample, or
    an exception (estimator not fitted, [nan] in [X], ...). *)
Variable svc_predict_proba : SVC -> list (list float) -> result (list (list Q)).
(** [train_test_split(X, y, test_size=0.2, random_state=42)] *)
Variable train_test_split :
  list (list float) -> list Z ->
  (list (list float) * list (list float)) * (list Z * list Z).

(** What fitting leaves in a [TfidfVectorizer]: vocabulary and idf weights. *)
Variable tfidf_fit : Type.
(** A row of a tf-idf matrix. *)
Variable row : Type.
(** [TfidfVectorizer(...).fit_transform(texts)]: fitting starts from the
    constructor arguments alone; it gives the fitted state and one row per
    text, or raises (empty vocabulary, ...). *)
Variable tfidf_fit_transform :
  tfidf_params -> list str -> result (tfidf_fit * list row).
(** The cosine of two rows, as [cosine_similarity] computes it. *)
Variable cosine : row -> row -> Q.

Record TfidfVectorizer : Type := {
  params : tfidf_params;
  fitted : option tfidf_fit
}.

(** [cosine_similarity(X, Y)]; an array without rows is refused. *)
Definition cosine_similarity (X Y : list row) : result (list (list Q)) :=
  match X, Y with
  | [], _ | _, [] => Raise ValueError
  | _, _ => Ok (map (fun x => map (cosine x) Y) X)
  end.

(** *** State *)

Record PlagiarismDetector : Type := {
  model_path : string;
  vectorizer : TfidfVectorizer;
  svm_model : SVC;
  similarity_threshold : Q;
  plagiarism_threshold : Q;
  reference_texts : list str
}.

(** The dictionary that [save_model] pickles. *)
Record model_data : Type := {
  md_svm_model : SVC;
  md_vectorizer : TfidfVectorizer;
  md_reference_texts : list str
}.

(** The detector object, the pickle files by path, and the reading of the
    wall clock in the format of the report. *)
Record world : Type := {
  self : PlagiarismDetector;
  disk : string -> option model_data;
  clock : string
}.

Definition set_self (f : PlagiarismDetector -> PlagiarismDetector) (w : world)
  : world :=
  {| self := f (self w); disk := disk w; clock := clock w |}.

Definition set_vectorizer (v : TfidfVectorizer) (d : PlagiarismDetector)
  : PlagiarismDetector :=
  {| model_path := model_path d; vectorizer := v; svm_model := svm_model d;
     similarity_threshold := similarity_threshold d;
     plagiarism_threshold := plagiarism_threshold d;
     reference_texts := reference_texts d |}.

Definition set_svm_model (m : SVC) (d : PlagiarismDetector)
  : PlagiarismDetector :=
  {| model_path := model_path d; vectorizer := vectorizer d; svm_model := m;
     similarity_threshold := similarity_threshold d;
     plagiarism_threshold := plagiarism_threshold d;
     reference_texts := reference_texts d |}.

Definition set_reference_texts (l : list str) (d : PlagiarismDetector)
  : PlagiarismDetector :=
  {| model_path := model_path d; vectorizer := vectorizer d;
     svm_model := svm_model d;
     similarity_threshold := similarity_threshold d;
     plagiarism_threshold := plagiarism_threshold d;
     reference_texts := l |}.

(** [pickle.dump(data, open(path, 'wb'))] *)
Definition write_pickle (path : string) (data : model_data) (w : world)
  : world :=
  {| self := self w;
     disk := fun p => if String.eqb p path then Some data else disk w p;
     clock := clock w |}.

(** [pickle.load(open(path, 'rb'))] *)
Definition read_pickle (path : string) : M world model_data :=
  fun w =>
    match disk w path with
    | Some data => (Ok data, w)
    | None => (Raise FileNotFoundError, w)
    end.

Local Open Scope method_scope.

(** [self.vectorizer.fit_transform(texts)]: refits the vectorizer in
    place. *)
Definition vectorizer_fit_transform (texts : list str) : M world (list row) :=
  fun w =>
    let v := vectorizer (self w) in
    match tfidf_fit_transform (params v) texts with
    | Ok (f, matrix) =>
        (Ok matrix,
         set_self (set_vectorizer {| params := params v; fitted := Some f |}) w)
    | Raise e => (Raise e, w)
    end.

(** *** Methods *)

(** [PlagiarismDetector.save_model] *)
Definition save_model : M world unit :=
  w <- get;;
  let model_data := {|
    md_svm_model := svm_model (self w);
    md_vectorizer := vectorizer (self w);
    md_reference_texts := reference_texts (self w) |} in
  modify (write_pickle (model_path (self w)) model_data).

(** [PlagiarismDetector.train_model] *)
Definition train_model : M world unit :=
  let '(texts, labels) := generate_training_data in
  let features :=
    map (fun text => extract_features (preprocess_text text)) texts in
  let '((X_train, X_test), (y_train, y_test)) :=
    train_test_split features labels in
  modify (set_self (fun d => set_svm_model (svc_fit (svm_model d) X_train y_train) d));;;
  modify (set_self (set_reference_texts (map preprocess_text texts)));;;
  save_model.

(** [PlagiarismDetector.load_model] *)
Definition load_model : M world bool :=
  try_except_on is_FileNotFoundError
    (w <- get;;
     model_data <- read_pickle (model_path (self w));;
     modify (set_self (set_svm_model (md_svm_model model_data)));;;
     modify (set_self (set_vectorizer (md_vectorizer model_data)));;;
     modify (set_self (set_reference_texts (md_reference_texts model_data)));;;
     ret true)
    (ret false).

(** [PlagiarismDetector.load_or_create_model] *)
Definition load_or_create_model : M world unit :=
  loaded <- load_model;;
  if negb loaded then train_model else ret tt.

(** [PlagiarismDetector.__init__] *)
Definition init (model_path : string) : M world unit :=
  modify (set_self (fun _ => {|
    model_path := model_path;
    vectorizer := {|
      params := {| max_features := 5000; stop_words := "english";
                   ngram_range := (1, 3)%nat; lowercase := true |};
      fitted := None |};
    svm_model := svc_new;
    similarity_threshold := 3 # 10;
    plagiarism_threshold := 30;
    reference_texts := [] |}));;;
  load_or_create_model.

(** [PlagiarismDetector.calculate_similarity_score] *)
Definition calculate_similarity_score (text : str) : M world Q :=
  w <- get;;
  match reference_texts (self w) with
  | [] => ret 0
  | _ =>
      let processed_text := preprocess_text text in
      let all_texts := reference_texts (self w) ++ [processed_text] in
      try_except
        (tfidf_matrix <- vectorizer_fit_transform all_texts;;
         similarities <-
           lift (cosine_similarity (slice_last tfidf_matrix)
                                   (slice_init tfidf_matrix));;
         max_similarity <- lift (np_max similarities);;
         ret max_similarity)
        (ret 0)
  end.

(** The classifier step of [detect_plagiarism]:
    [predict_proba([text_features])[0][1]], and 0.0 when that raises. *)
Definition svm_probability (text_features : list float) : M world Q :=
  try_except
    (w <- get;;
     proba <- lift (svc_predict_proba (svm_model (self w)) [text_features]);;
     proba0 <- lift (index proba 0);;
     lift (index proba0 1))
    (ret 0).

(** The guard of [detect_plagiarism]:
    [not text or len(text.strip()) < 10]. *)
Definition too_short (text : str) : bool :=
  match text with
  | [] => true
  | _ => (length (strip text) <? 10)%nat
  end.

(** [PlagiarismDetector.detect_plagiarism] *)
Definition detect_plagiarism (text : str) : M world Q :=
  if too_short text then ret 0
  else
    let processed_text := preprocess_text text in
    let text_features := extract_features processed_text in
    svm_probability <- svm_probability text_features;;
    similarity_score <- calculate_similarity_score text;;
    let final_score :=
      (svm_probability * (6 # 10) + similarity_score * (4 # 10)) * 100 in
    ret (py_min final_score 100).

(** [PlagiarismDetector.get_detailed_report] *)
Definition get_detailed_report (text : str) : M world PlagiarismReport :=
  let processed_text := preprocess_text text in
  plagiarism_score <- detect_plagiarism text;;
  let features := extract_features processed_text in
  similarity_score <- calculate_similarity_score text;;
  let '(risk_level, risk_color) := risk_of plagiarism_score in
  w <- get;;
  ret {|
    plagiarism_score := py_round2 plagiarism_score;
    similarity_score := py_round2 (similarity_score * 100);
    risk_level := risk_level;
    risk_color := risk_color;
    word_count := length (split processed_text);
    character_count := length processed_text;
    unique_words := len_set (split processed_text);
    recommendations := get_recommendations plagiarism_score;
    timestamp := clock w |}.

(** [PlagiarismDetector.add_reference_text] *)
Definition add_reference_text (text : str) : M world unit :=
  let processed_text := preprocess_text text in
  w <- get;;
  if in_dec str_eq_dec processed_text (reference_texts (self w))
  then ret tt
  else
    modify (set_self (fun d =>
      set_reference_texts (reference_texts d ++ [processed_text]) d));;;
    save_model.

End Detector.

(** ** A small instance of the scikit-learn interface

    A classifier that predicts one fixed probability for class 1 and
    refuses samples that hold [nan]; a vectorizer whose rows are the token
    lists of the texts and which refuses an empty vocabulary; a cosine that
    tells equal rows from different ones.  It is used to run the methods on
    concrete inputs. *)

Module Toy.

Definition SVC : Type := Q.

Definition has_nan (x : list float) : bool :=
  existsb (fun v => match v with nan => true | fin _ => false end) x.

(** The probability of class 1 that the classifier [m] predicts. *)
Definition proba1 (m : SVC) : Q :=
  if Qltb m 0 then 0 else if Qltb 1 m then 1 else m.

Definition predict_proba (m : SVC) (X : list (list float))
  : result (list (list Q)) :=
  if existsb has_nan X then Raise ValueError
  else Ok (map (fun _ => [1 - proba1 m; proba1 m]) X).

Definition fit (m : SVC) (X : list (list float)) (y : list Z) : SVC := m.

Definition train_test_split (X : list (list float)) (y : list Z)
  : (list (list float) * list (list float)) * (list Z * list Z) :=
  ((firstn 16 X, skipn 16 X), (firstn 16 y, skipn 16 y)).

Definition tfidf_fit : Type := list str.
Definition row : Type := list str.

Definition fit_transform (p : tfidf_params) (texts : list str)
  : result (tfidf_fit * list row) :=
  let rows := map split texts in
  match concat rows with
  | [] => Raise ValueError
  | vocabulary => Ok (nodup str_eq_dec vocabulary, rows)
  end.

Definition cosine (x y : row) : Q :=
  match x with
  | [] => 0
  | _ => if list_eq_dec str_eq_dec x y then 1 else 0
  end.

Definition world : Type := world SVC tfidf_fit.

Definition default_params : tfidf_params :=
  {| max_features := 5000; stop_words := "english";
     ngram_range := (1, 3)%nat; lowercase := true |}.

(** A detector with classifier [m] and corpus [refs], and an empty disk. *)
Definition mk_world (m : SVC) (refs : list str) : world :=
  {| self := {| model_path := "plagiarism_model.pkl";
                vectorizer := {| params := default_params; fitted := None |};
                svm_model := m;
                similarity_threshold := 3 # 10;
                plagiarism_threshold := 30;
                reference_texts := refs |};
     disk := fun _ => None;
     clock := "2024-01-01 00:00:00" |}.

Definition detect_plagiarism : str -> M world Q :=
  detect_plagiarism predict_proba fit_transform cosine.

Definition calculate_similarity_score : str -> M world Q :=
  calculate_similarity_score fit_transform cosine.

Definition get_detailed_report : str -> M world PlagiarismReport :=
  get_detailed_report predict_proba fit_transform cosine.

End Toy.

(** ** Notions of the specification *)

(** [clamp(x, lo, hi)] *)
Definition clamp (x lo hi : Q) : Q :=
  if Qltb x lo then lo else if Qltb hi x then hi else x.

(** The order of the four risk levels. *)
Definition risk_rank (level : string) : nat :=
  if String.eqb level "Low" then 0
  else if String.eqb level "Medium" then 1
  else if String.eqb level "High" then 2
  else 3.

(** No two whitespace characters in a row. *)
Fixpoint no_ws_run (s : str) : bool :=
  match s with
  | c1 :: s' =>
      match s' with
      | c2 :: _ => negb (isspace c1 && isspace c2) && no_ws_run s'
      | [] => true
      end
  | [] => true
  end.

(** No whitespace at either end. *)
Definition trimmed (s : str) : Prop := strip s = s.

(** The shape of a stripped string: empty, or a string whose first and last
    characters are not whitespace. *)
Inductive stripped : str -> Prop :=
| stripped_nil : stripped []
| stripped_one c : isspace c = false -> stripped [c]
| stripped_ends a mid z :
    isspace a = false -> isspace z = false -> stripped (a :: mid ++ [z]).

(** Lower-case: a fixed point of [str.lower]. *)
Definition is_lower (s : str) : Prop := lower s = s.

(** Only word characters, whitespace and the punctuation [. , ! ? ; :]. *)
Definition only_kept (s : str) : bool := forallb is_kept s.

(** The four properties the specification gives to a normalized text. *)
Definition normalized (s : str) : Prop :=
  is_lower s /\ trimmed s /\ no_ws_run s = true /\ only_kept s = true.

(** Two states with the same model: the same classifier, the same
    constructor arguments of the vectorizer and the same corpus. *)
Definition same_model {SVC tfidf_fit : Type} (w1 w2 : world SVC tfidf_fit)
  : Prop :=
  svm_model (self w1) = svm_model (self w2) /\
  params (vectorizer (self w1)) = params (vectorizer (self w2)) /\
  reference_texts (self w1) = reference_texts (self w2).

(** Two states that differ at most in what the last fit left in the
    vectorizer. *)
Definition same_but_fit {SVC tfidf_fit : Type} (w1 w2 : world SVC tfidf_fit)
  : Prop :=
  same_model w1 w2 /\
  model_path (self w1) = model_path (self w2) /\
  similarity_threshold (self w1) = similarity_threshold (self w2) /\
  plagiarism_threshold (self w1) = plagiarism_threshold (self w2) /\
  disk w1 = disk w2 /\
  clock w1 = clock w2.

(** ** The services of the detector, as their callers use them *)

(** A call of one of the three public methods. *)
Inductive request : Type :=
| Score (text : str)
| Report (text : str)
| AddReference (text : str).

Section Callers.

Variable SVC : Type.
Variable svc_predict_proba : SVC -> list (list float) -> result (list (list Q)).
Variable tfidf_fit : Type.
Variable row : Type.
Variable tfidf_fit_transform :
  tfidf_params -> list str -> result (tfidf_fit * list row).
Variable cosine : row -> row -> Q.

Local Open Scope method_scope.

(** One call; its result is dropped. *)
Definition serve (r : request) : M (world SVC tfidf_fit) unit :=
  match r with
  | Score text =>
      detect_plagiarism svc_predict_proba tfidf_fit_transform cosine text;;;
      ret tt
  | Report text =>
      get_detailed_report svc_predict_proba tfidf_fit_transform cosine text;;;
      ret tt
  | AddReference text => add_reference_text text
  end.

(** A sequence of calls on one detector. *)
Fixpoint serve_all (rs : list request) : M (world SVC tfidf_fit) unit :=
  match rs with
  | [] => ret tt
  | r :: rs' => serve r;;; serve_all rs'
  end.

(** The loop of [AdminTools.reset_plagiarism_scores] over the rows
    [(id, content)] that its SELECT fetched: the parameters of the UPDATE
    statements it executes, in order, and [updated_count]. *)
Fixpoint reset_plagiarism_scores_loop (submissions : list (Z * str))
         (updates : list (Q * Z)) (updated_count : nat)
  : M (world SVC tfidf_fit) (list (Q * Z) * nat) :=
  match submissions with
  | [] => ret (updates, updated_count)
  | (submission_id, content) :: rest =>
      match content with
      | [] => reset_plagiarism_scores_loop rest updates updated_count
      | _ =>
          new_score <-
            detect_plagiarism svc_predict_proba tfidf_fit_transform cosine
              content;;
          reset_plagiarism_scores_loop rest
            (updates ++ [(new_score, submission_id)]) (S updated_count)
      end
  end.

(** [AdminTools.reset_plagiarism_scores], given the fetched rows. *)
Definition reset_plagiarism_scores (submissions : list (Z * str))
  : M (world SVC tfidf_fit) (list (Q * Z) * nat) :=
  reset_plagiarism_scores_loop submissions [] 0.

End Callers.

(** The model file of the detector holds the classifier, the vectorizer
    arguments and the corpus that the detector has in memory. *)
Definition in_sync {SVC tfidf_fit : Type} (w : world SVC tfidf_fit) : Prop :=
  exists data,
    disk w (model_path (self w)) = Some data /\
    md_svm_model data = svm_model (self w) /\
    params (md_vectorizer data) = params (vectorizer (self w)) /\
    md_reference_texts data = reference_texts (self w).

(** The level, colour and recommendations that go together. *)
Definition risk_table : list (string * string * list string) :=
  [ ("Low", "green", get_recommendations 0);
    ("Medium", "yellow", get_recommendations 15);
    ("High", "orange", get_recommendations 30);
    ("Very High", "red", get_recommendations 50) ].

(** ** File names ([file_processor.py], class [FileProcessor]) *)

Module FileProcessor.

(** [self.allowed_extensions] *)
Definition allowed_extensions : list str :=
  map lit ["txt"; "pdf"; "doc"; "docx"; "py"; "java"; "cpp"; "c"; "js";
           "html"; "css"].

(** [x in s] for a set or list of strings. *)
Definition mem (x : str) (s : list str) : bool :=
  if in_dec str_eq_dec x s then true else false.

(** [c in s] for a character and a string. *)
Definition contains (c : ascii) (s : str) : bool := existsb (Ascii.eqb c) s.

(** The text before and the text after the first [sep]. *)
Fixpoint break_first (sep : ascii) (s : str) : option (str * str) :=
  match s with
  | [] => None
  | c :: s' =>
      if Ascii.eqb c sep then Some ([], s')
      else match break_first sep s' with
           | Some (before, after) => Some (c :: before, after)
           | None => None
           end
  end.

(** [s.rsplit(sep, 1)] *)
Definition rsplit1 (sep : ascii) (s : str) : list str :=
  match break_first sep (rev s) with
  | Some (after, before) => [rev before; rev after]
  | None => [s]
  end.

Definition dot : ascii := "."%char.

(** [FileProcessor.allowed_file] *)
Definition allowed_file (filename : str) : result bool :=
  if contains dot filename then
    match index (rsplit1 dot filename) 1 with
    | Ok ext => Ok (mem (lower ext) allowed_extensions)
    | Raise e => Raise e
    end
  else Ok false.

(** [FileProcessor.get_file_type] *)
Definition get_file_type (filename : str) : result str :=
  if contains dot filename then
    match index (rsplit1 dot filename) 1 with
    | Ok ext => Ok (lower ext)
    | Raise e => Raise e
    end
  else Ok [].

(** [s.replace(old, new)] for two characters. *)
Definition replace_char (old new : ascii) (s : str) : str :=
  map (fun c => if Ascii.eqb c old then new else c) s.

(** [s.rfind(c)]: the index of the last [c], [-1] without one.  [i] is the
    index of the head of [s], [last] the last index found before it. *)
Fixpoint rfind_from (i last : Z) (c : ascii) (s : str) : Z :=
  match s with
  | [] => last
  | x :: s' => rfind_from (i + 1) (if Ascii.eqb x c then i else last) c s'
  end.

Definition rfind (c : ascii) (s : str) : Z := rfind_from 0 (-1) c s.

(** [s[lo:hi]] for [0 <= lo]. *)
Definition slice (s : str) (lo hi : Z) : str :=
  firstn (Z.to_nat (hi - lo)) (skipn (Z.to_nat lo) s).

(** [genericpath._splitext(p, sep, altsep, extsep)]: the extension starts
    at the last [extsep] after the last separator, unless only [extsep]s
    stand between the two. *)
Definition splitext_generic (p : str) (sep : ascii) (altsep : option ascii)
           (extsep : ascii) : str * str :=
  let sepIndex := rfind sep p in
  let sepIndex :=
    match altsep with
    | Some a => Z.max sepIndex (rfind a p)
    | None => sepIndex
    end in
  let dotIndex := rfind extsep p in
  if (sepIndex <? dotIndex)%Z then
    if existsb (fun c => negb (Ascii.eqb c extsep))
               (slice p (sepIndex + 1) dotIndex)
    then (firstn (Z.to_nat dotIndex) p, skipn (Z.to_nat dotIndex) p)
    else (p, [])
  else (p, []).

(** [os.path.splitext] of [posixpath]. *)
Definition splitext (p : str) : str * str :=
  splitext_generic p "/"%char None dot.

(** [os.path.splitext] of [ntpath]. *)
Definition splitext_nt (p : str) : str * str :=
  splitext_generic p (chr 92) (Some "/"%char) dot.

(** The string [unsafe_chars] of [clean_filename]: the nine characters
    that Windows file names may not hold. *)
Definition unsafe_chars : str :=
  [ "<"%char; ">"%char; ":"%char; chr 34; "/"%char; chr 92; "|"%char;
    "?"%char; "*"%char ].

Definition underscore : ascii := "_"%char.

(** The loop of [clean_filename] over [unsafe_chars]. *)
Definition replace_unsafe (filename : str) : str :=
  fold_left (fun filename char => replace_char char underscore filename)
            unsafe_chars filename.

(** [FileProcessor.clean_filename] *)
Definition clean_filename (filename : str) : str :=
  let filename := replace_unsafe filename in
  let '(name, ext) := splitext filename in
  let name := if (100 <? length name)%nat then firstn 100 name else name in
  name ++ ext.

End FileProcessor.

(** * Properties *)

Unset Implicit Arguments.

(** ** Characters *)

Section Characters.

Ltac by_cases c :=
  destruct c as [[] [] [] [] [] [] [] []]; vm_compute; try reflexivity;
  try discriminate; auto.

Lemma lower_char_idem (c : ascii) : lower_char (lower_char c) = lower_char c.
Proof. by_cases c. Qed.

Lemma is_kept_lower_char (c : ascii) :
  is_kept c = true -> is_kept (lower_char c) = true.
Proof. by_cases c. Qed.

Lemma isspace_lower_char (c : ascii) : isspace (lower_char c) = isspace c.
Proof. by_cases c. Qed.

Lemma isspace_is_kept (c : ascii) : isspace c = true -> is_kept c = true.
Proof.
  unfold is_kept. intros ->. now rewrite orb_true_r.
Qed.

Lemma is_special_not_space (c : ascii) :
  is_special c = true -> isspace c = false.
Proof.
  unfold is_special. intros H. destruct (isspace c) eqn:E; [|reflexivity].
  now rewrite (isspace_is_kept _ E) in H.
Qed.

End Characters.

(** ** Strings *)

Section Strings.

Lemma lstrip_head (s : str) :
  lstrip s = [] \/
  exists c r, lstrip s = c :: r /\ isspace c = false.
Proof.
  induction s as [|c s IH]; simpl; [now left|].
  destruct (isspace c) eqn:E; [exact IH|].
  right. now exists c, s.
Qed.

Lemma lstrip_fixed (c : ascii) (s : str) :
  isspace c = false -> lstrip (c :: s) = c :: s.
Proof. simpl. now intros ->. Qed.

Lemma lstrip_snoc (s : str) (c : ascii) :
  isspace c = false -> lstrip (s ++ [c]) = lstrip s ++ [c].
Proof.
  intros Hc. induction s as [|a s IH]; simpl.
  - now rewrite Hc.
  - destruct (isspace a); [exact IH | reflexivity].
Qed.

Lemma strip_stripped (s : str) : stripped (strip s).
Proof.
  unfold strip, rstrip.
  destruct (lstrip_head s) as [-> | (c & r & -> & Hc)]; [constructor|].
  simpl rev. rewrite (lstrip_snoc _ _ Hc), rev_app_distr. simpl.
  destruct (lstrip_head (rev r)) as [-> | (z & q & -> & Hz)]; simpl.
  - now constructor.
  - now constructor.
Qed.

Lemma stripped_trimmed (s : str) : stripped s -> trimmed s.
Proof.
  unfold trimmed, strip, rstrip.
  destruct 1 as [|c Hc|a mid z Ha Hz]; [reflexivity| |].
  - simpl. now rewrite Hc; simpl; rewrite Hc.
  - rewrite (lstrip_fixed _ _ Ha).
    change (rev (a :: mid ++ [z])) with (rev (mid ++ [z]) ++ [a]).
    rewrite rev_app_distr.
    change (rev [z] ++ rev mid) with (z :: rev mid).
    change ((z :: rev mid) ++ [a]) with (z :: rev mid ++ [a]).
    rewrite (lstrip_fixed _ _ Hz).
    change (rev (z :: rev mid ++ [a])) with (rev (rev mid ++ [a]) ++ [z]).
    rewrite rev_app_distr, rev_involutive. reflexivity.
Qed.

Lemma stripped_map (f : ascii -> ascii) (s : str) :
  (forall c, isspace (f c) = isspace c) -> stripped s -> stripped (map f s).
Proof.
  intros Hf [|c Hc|a mid z Ha Hz]; simpl.
  - constructor.
  - constructor. now rewrite Hf.
  - rewrite map_app. simpl. constructor; now rewrite Hf.
Qed.

(** Collapsing whitespace runs. *)

Lemma collapse_snoc (b : bool) (s : str) (z : ascii) :
  isspace z = false ->
  re_sub_runs isspace blank b (s ++ [z]) = re_sub_runs isspace blank b s ++ [z].
Proof.
  intros Hz. revert b. induction s as [|c s IH]; intros b; simpl.
  - now rewrite Hz.
  - destruct (isspace c); [destruct b|]; simpl; now rewrite IH.
Qed.

Lemma collapse_stripped (s : str) :
  stripped s -> stripped (re_sub_runs isspace blank false s).
Proof.
  intros [|c Hc|a mid z Ha Hz]; simpl.
  - constructor.
  - rewrite Hc. now constructor.
  - rewrite Ha, (collapse_snoc _ _ _ Hz). now constructor.
Qed.

Lemma no_ws_run_cons (c : ascii) (s : str) :
  isspace c = false -> no_ws_run (c :: s) = no_ws_run s.
Proof.
  intros Hc. destruct s as [|d s]; [reflexivity|].
  cbn [no_ws_run]. now rewrite Hc.
Qed.

Lemma no_ws_run_after (c d : ascii) (s : str) :
  isspace d = false -> no_ws_run (c :: d :: s) = no_ws_run s.
Proof.
  intros Hd. rewrite <- (no_ws_run_cons d s Hd).
  cbn [no_ws_run]. now rewrite Hd, andb_false_r.
Qed.

(** The invariant carries the blank just written when a run is open. *)
Lemma collapse_no_ws_run (b : bool) (s : str) :
  no_ws_run (if b then blank :: re_sub_runs isspace blank true s
             else re_sub_runs isspace blank false s) = true.
Proof.
  revert b. induction s as [|c s IH]; intros b; [now destruct b|].
  destruct b; simpl re_sub_runs; destruct (isspace c) eqn:E.
  - exact (IH true).
  - rewrite (no_ws_run_after _ _ _ E). exact (IH false).
  - exact (IH true).
  - rewrite (no_ws_run_cons _ _ E). exact (IH false).
Qed.

Lemma collapse_only_blank (b : bool) (s : str) :
  Forall (fun c => isspace c = true -> c = blank)
         (re_sub_runs isspace blank b s).
Proof.
  revert b. induction s as [|c s IH]; intros b; simpl; [constructor|].
  destruct (isspace c) eqn:E; [destruct b|]; auto.
  constructor; auto. congruence.
Qed.

Lemma collapse_kept (b : bool) (s : str) :
  only_kept s = true -> only_kept (re_sub_runs isspace blank b s) = true.
Proof.
  unfold only_kept. revert b. induction s as [|c s IH]; intros b; simpl; auto.
  intros [Hc Hs]%andb_prop.
  destruct (isspace c); [destruct b|]; simpl; auto.
  now rewrite Hc, IH.
Qed.

Lemma collapse_no_space (b : bool) (s : str) :
  forallb (fun c => negb (isspace c)) s = true ->
  re_sub_runs isspace blank b s = s.
Proof.
  revert b. induction s as [|c s IH]; intros b; simpl; auto.
  intros [Hc Hs]%andb_prop. apply negb_true_iff in Hc. rewrite Hc.
  now rewrite IH.
Qed.

Lemma no_ws_run_map (f : ascii -> ascii) (s : str) :
  (forall c, isspace (f c) = isspace c) ->
  no_ws_run (map f s) = no_ws_run s.
Proof.
  intros Hf. induction s as [|a s IH]; [reflexivity|].
  destruct s as [|b s]; [reflexivity|].
  change (map f (a :: b :: s)) with (f a :: map f (b :: s)).
  cbn [no_ws_run]. simpl map in *. cbn [no_ws_run] in IH.
  rewrite !Hf. f_equal. exact IH.
Qed.

Lemma re_delete_kept (s : str) :
  only_kept s = true -> re_delete is_special s = s.
Proof.
  unfold only_kept, re_delete, is_special.
  induction s as [|c s IH]; simpl; auto.
  intros [Hc Hs]%andb_prop. rewrite Hc. simpl. now rewrite IH.
Qed.

Lemma re_delete_only_kept (s : str) :
  only_kept (re_delete is_special s) = true.
Proof.
  unfold only_kept, re_delete, is_special.
  induction s as [|c s IH]; simpl; auto.
  destruct (is_kept c) eqn:E; simpl; auto. now rewrite E.
Qed.

Lemma re_delete_all_special (s : str) :
  forallb is_special s = true -> re_delete is_special s = [].
Proof.
  unfold re_delete. induction s as [|c s IH]; simpl; auto.
  intros [Hc Hs]%andb_prop. rewrite Hc. simpl. auto.
Qed.

Lemma lower_only_kept (s : str) :
  only_kept s = true -> only_kept (lower s) = true.
Proof.
  unfold only_kept, lower. induction s as [|c s IH]; simpl; auto.
  intros [Hc Hs]%andb_prop. now rewrite (is_kept_lower_char _ Hc), IH.
Qed.

Lemma lower_is_lower (s : str) : is_lower (lower s).
Proof.
  unfold is_lower, lower. rewrite map_map.
  apply map_ext. exact lower_char_idem.
Qed.

End Strings.

(** ** The text normalizer *)

Section Normalizer.

Lemma forallb_lstrip (p : ascii -> bool) (s : str) :
  forallb p s = true -> forallb p (lstrip s) = true.
Proof.
  induction s as [|c s IH]; simpl; auto.
  intros H. destruct (isspace c); [|exact H].
  apply andb_prop in H. now apply IH.
Qed.

Lemma forallb_rev (p : ascii -> bool) (s : str) :
  forallb p (rev s) = forallb p s.
Proof.
  induction s as [|c s IH]; simpl; auto.
  rewrite forallb_app, IH. simpl. rewrite andb_true_r. apply andb_comm.
Qed.

Lemma forallb_strip (p : ascii -> bool) (s : str) :
  forallb p s = true -> forallb p (strip s) = true.
Proof.
  intros H. unfold strip, rstrip.
  rewrite forallb_rev. apply forallb_lstrip.
  rewrite forallb_rev. now apply forallb_lstrip.
Qed.

Lemma preprocess_text_lower (text : str) : is_lower (preprocess_text text).
Proof. apply lower_is_lower. Qed.

Lemma preprocess_text_only_kept (text : str) :
  only_kept (preprocess_text text) = true.
Proof. apply lower_only_kept, re_delete_only_kept. Qed.

Lemma preprocess_text_only_blank (text : str) :
  Forall (fun c => isspace c = true -> c = blank) (preprocess_text text).
Proof.
  unfold preprocess_text, lower, re_delete.
  apply Forall_map, Forall_forall. intros c Hc%filter_In Hsp.
  destruct Hc as [Hc _].
  pose proof (collapse_only_blank false (strip text)) as H.
  rewrite Forall_forall in H.
  rewrite isspace_lower_char in Hsp.
  now rewrite (H c Hc Hsp).
Qed.

Lemma preprocess_text_of_kept (text : str) :
  only_kept text = true ->
  preprocess_text text = lower (re_sub_runs isspace blank false (strip text)).
Proof.
  intros H. unfold preprocess_text.
  rewrite re_delete_kept; [reflexivity|].
  apply collapse_kept. now apply forallb_strip.
Qed.

Lemma preprocess_text_all_special (text : str) :
  forallb is_special text = true -> preprocess_text text = [].
Proof.
  intros H. unfold preprocess_text.
  apply (forallb_strip is_special) in H.
  rewrite collapse_no_space.
  - now rewrite re_delete_all_special.
  - rewrite forallb_forall in *. intros c Hc.
    now rewrite (is_special_not_space c (H c Hc)).
Qed.

Lemma collapse_forallb (p : ascii -> bool) (b : bool) (s : str) :
  p blank = true ->
  forallb p s = true -> forallb p (re_sub_runs isspace blank b s) = true.
Proof.
  intros Hb. revert b. induction s as [|c s IH]; intros b; simpl; auto.
  intros [Hc Hs]%andb_prop.
  destruct (isspace c); [destruct b|]; simpl; auto.
  - now rewrite Hb, IH.
  - now rewrite Hc, IH.
Qed.

(** A text of deleted characters and whitespace normalizes to whitespace. *)
Lemma preprocess_text_blank_only (text : str) :
  forallb (fun c => is_special c || isspace c) text = true ->
  forallb isspace (preprocess_text text) = true.
Proof.
  intros H. unfold preprocess_text, lower, re_delete.
  apply (forallb_strip _ text) in H.
  apply (collapse_forallb _ false) in H; [|reflexivity].
  induction (re_sub_runs isspace blank false (strip text)) as [|c s IH];
    simpl in *; auto.
  apply andb_prop in H. destruct H as [Hc Hs].
  destruct (is_special c) eqn:E; simpl in *; auto.
  now rewrite isspace_lower_char, Hc, IH.
Qed.

(** C6, as stated, fails: the whitespace pass runs before the character
    filter, so deleting a character between two blanks leaves a run of two
    blanks, and deleting the first character before a blank leaves a
    leading blank. *)
Lemma preprocess_text_not_normalized :
  preprocess_text (lit "a @ b") = lit "a  b" /\
  preprocess_text (lit "@ a") = lit " a" /\
  ~ normalized (preprocess_text (lit "a @ b")) /\
  ~ normalized (preprocess_text (lit "@ a")).
Proof.
  split; [reflexivity|]. split; [reflexivity|]. split.
  - intros (_ & _ & H & _). vm_compute in H. discriminate.
  - intros (_ & H & _). vm_compute in H. discriminate.
Qed.

(** C6, amended: [preprocess_text] is a total function whose output is
    lower-case, holds only word characters, whitespace and the punctuation
    [. , ! ? ; :], and has the blank as its only whitespace character; the
    empty text gives the empty text; and when the input holds no character
    that the filter deletes, the output has no whitespace at its ends and
    no run of two whitespace characters. *)
Theorem preprocess_text_normal_form (text : str) :
  is_lower (preprocess_text text) /\
  only_kept (preprocess_text text) = true /\
  Forall (fun c => isspace c = true -> c = blank) (preprocess_text text) /\
  preprocess_text [] = [] /\
  (only_kept text = true -> normalized (preprocess_text text)).
Proof.
  split; [apply preprocess_text_lower|].
  split; [apply preprocess_text_only_kept|].
  split; [apply preprocess_text_only_blank|].
  split; [reflexivity|].
  intros H. unfold normalized.
  split; [apply preprocess_text_lower|].
  split; [|split; [|apply preprocess_text_only_kept]];
    rewrite (preprocess_text_of_kept _ H); unfold lower.
  - apply stripped_trimmed, stripped_map; [exact isspace_lower_char|].
    apply collapse_stripped, strip_stripped.
  - rewrite (no_ws_run_map _ _ isspace_lower_char).
    exact (collapse_no_ws_run false (strip text)).
Qed.

Lemma preprocess_text_normal_form_witness :
  only_kept (lit "  Hello,   World!  ") = true /\
  normalized (preprocess_text (lit "  Hello,   World!  ")) /\
  preprocess_text (lit "  Hello,   World!  ") = lit "hello, world!".
Proof.
  split; [reflexivity|]. split; [|reflexivity].
  apply (preprocess_text_normal_form (lit "  Hello,   World!  ")).
  reflexivity.
Defined.

End Normalizer.

(** ** The feature extractor *)

Section Features.

Lemma split_from_nil (cur s : str) :
  split_from cur s = [] -> cur = [] /\ forallb isspace s = true.
Proof.
  revert cur. induction s as [|c s IH]; intros cur; simpl.
  - destruct cur; [auto | discriminate].
  - destruct (isspace c) eqn:E.
    + destruct cur; [|discriminate]. intros H. now destruct (IH [] H).
    + intros H. destruct (IH _ H). discriminate.
Qed.

Lemma split_all_space (s : str) :
  forallb isspace s = true -> split s = [].
Proof.
  unfold split. induction s as [|c s IH]; simpl; auto.
  intros [-> Hs]%andb_prop. auto.
Qed.

(** No token exactly when the text is whitespace only. *)
Lemma word_count_zero (text : str) :
  length (split text) = 0%nat <-> forallb isspace text = true.
Proof.
  split.
  - intros H. apply length_zero_iff_nil in H.
    now destruct (split_from_nil [] text H).
  - intros H. now rewrite split_all_space.
Qed.

(** C5: [extract_features] returns the six features in the order
    word_count, char_count, sentence_count, avg_word_length,
    vocabulary_richness, punctuation_density; without a word the average
    word length is [nan] and the vocabulary richness is 0, and on the empty
    text the punctuation density is 0.  Otherwise the three ratios are the
    mean token length, distinct tokens per token, and punctuation
    characters per character. *)
Theorem extract_features_layout (text : str) :
  exists avg_word_length vocabulary_richness punctuation_density,
    extract_features text =
      [ fin (of_nat (length (split text)));
        fin (of_nat (length text));
        fin (of_nat (length (re_split_runs is_sentence_end false text)));
        avg_word_length;
        fin vocabulary_richness;
        fin punctuation_density ] /\
    (length (split text) = 0%nat ->
       avg_word_length = nan /\ vocabulary_richness = 0) /\
    (length text = 0%nat -> punctuation_density = 0) /\
    (length (split text) <> 0%nat ->
       avg_word_length =
         fin (div_nat (list_sum (map (@length ascii) (split text)))
                      (length (split text))) /\
       vocabulary_richness =
         div_nat (len_set (split text)) (length (split text))) /\
    (length text <> 0%nat ->
       punctuation_density =
         div_nat (length (filter is_punct text)) (length text)).
Proof.
  unfold extract_features. do 3 eexists. split; [reflexivity|].
  split; [|split; [|split]].
  - intros H. apply length_zero_iff_nil in H. now rewrite H.
  - intros H. now rewrite H.
  - intros H. split.
    + unfold np_mean. destruct (split text) as [|t ts]; [contradiction|].
      now rewrite length_map.
    + destruct (length (split text)); [contradiction|reflexivity].
  - intros H. unfold re_findall. rewrite length_map.
    destruct (length text); [contradiction|reflexivity].
Qed.

Lemma extract_features_layout_witness :
  extract_features (lit "") = [fin 0; fin 0; fin 1; nan; fin 0; fin 0] /\
  extract_features (lit "   ") = [fin 0; fin 3; fin 1; nan; fin 0; fin 0] /\
  extract_features (lit "hello, world! hello.") =
    [fin 3; fin 20; fin 3; fin 6; fin 1; fin (3 # 20)] /\
  exists a v p,
    extract_features (lit "   ") =
      [fin 0; fin 3; fin 1; a; fin v; fin p] /\ a = nan /\ v = 0.
Proof.
  split; [reflexivity|]. split; [reflexivity|]. split; [reflexivity|].
  destruct (extract_features_layout (lit "   "))
    as (a & v & p & E & H0 & _).
  exists a, v, p. split; [exact E|]. apply H0. reflexivity.
Defined.

End Features.

(** ** Numbers *)

Section Numbers.

Lemma Qltb_true (a b : Q) : Qltb a b = true <-> a < b.
Proof.
  unfold Qltb. rewrite negb_true_iff. split.
  - intros H. apply Qnot_le_lt. intros Hle.
    apply Qle_bool_iff in Hle. congruence.
  - intros H. destruct (Qle_bool b a) eqn:E; [|reflexivity].
    apply Qle_bool_iff in E. exfalso. exact (Qlt_not_le _ _ H E).
Qed.

Lemma Qltb_false (a b : Q) : Qltb a b = false <-> b <= a.
Proof.
  unfold Qltb. rewrite negb_false_iff. apply Qle_bool_iff.
Qed.

Lemma py_min_le (a b : Q) : py_min a b <= b.
Proof.
  unfold py_min. destruct (Qltb b a) eqn:E.
  - apply Qle_refl.
  - now apply Qltb_false in E.
Qed.

Lemma py_min_ge (a b c : Q) : c <= a -> c <= b -> c <= py_min a b.
Proof. unfold py_min. now destruct (Qltb b a). Qed.

Lemma py_min_clamp (a : Q) : 0 <= a -> py_min a 100 == clamp a 0 100.
Proof.
  intros Ha. unfold py_min, clamp.
  destruct (Qltb a 0) eqn:E.
  - apply Qltb_true in E. exfalso. exact (Qlt_not_le _ _ E Ha).
  - reflexivity.
Qed.

Lemma fold_Qmaxb_In (xs : list Q) (x : Q) :
  In (fold_left Qmaxb xs x) (x :: xs).
Proof.
  revert x. induction xs as [|y xs IH]; intros x; simpl; [now left|].
  destruct (IH (Qmaxb x y)) as [H | H]; [|now right; right].
  rewrite <- H. unfold Qmaxb. destruct (Qltb x y); auto.
Qed.

Lemma Qmaxb_ge_l (x y : Q) : x <= Qmaxb x y.
Proof.
  unfold Qmaxb. destruct (Qltb x y) eqn:E; [|apply Qle_refl].
  apply Qltb_true in E. now apply Qlt_le_weak.
Qed.

Lemma Qmaxb_ge_r (x y : Q) : y <= Qmaxb x y.
Proof.
  unfold Qmaxb. destruct (Qltb x y) eqn:E; [apply Qle_refl|].
  now apply Qltb_false in E.
Qed.

Lemma fold_Qmaxb_ge_init (xs : list Q) (x : Q) : x <= fold_left Qmaxb xs x.
Proof.
  revert x. induction xs as [|y xs IH]; intros x; simpl; [apply Qle_refl|].
  eapply Qle_trans; [apply (Qmaxb_ge_l x y) | apply IH].
Qed.

Lemma fold_Qmaxb_ge (xs : list Q) (x y : Q) :
  In y (x :: xs) -> y <= fold_left Qmaxb xs x.
Proof.
  revert x. induction xs as [|z xs IH]; intros x [H | H]; simpl.
  - subst. apply Qle_refl.
  - destruct H.
  - subst. eapply Qle_trans; [apply (Qmaxb_ge_l y z)|].
    apply fold_Qmaxb_ge_init.
  - destruct H as [H | H].
    + subst. eapply Qle_trans; [apply (Qmaxb_ge_r x y)|].
      apply fold_Qmaxb_ge_init.
    + apply IH. now right.
Qed.

Lemma slice_last_snoc {A} (l : list A) (a : A) : slice_last (l ++ [a]) = [a].
Proof.
  unfold slice_last. rewrite length_app. simpl.
  replace (length l + 1 - 1)%nat with (length l + 0)%nat by lia.
  rewrite skipn_app, skipn_all2 by lia.
  now replace (length l + 0 - length l)%nat with 0%nat by lia.
Qed.

Lemma slice_init_snoc {A} (l : list A) (a : A) : slice_init (l ++ [a]) = l.
Proof.
  unfold slice_init. rewrite length_app. simpl.
  replace (length l + 1 - 1)%nat with (length l + 0)%nat by lia.
  rewrite firstn_app_2. simpl. apply app_nil_r.
Qed.

End Numbers.

(** ** The scoring pipeline *)

Ltac unfold_method :=
  unfold bind, ret, raise, get, lift, modify, try_except, try_except_on.

Section Scoring.

Context {SVC : Type}
        (svc_predict_proba :
           SVC -> list (list float) -> result (list (list Q)))
        {tfidf_fit row : Type}
        (tfidf_fit_transform :
           tfidf_params -> list str -> result (tfidf_fit * list row))
        (cosine : row -> row -> Q).

Local Abbreviation world := (world SVC tfidf_fit).
Local Abbreviation probability :=
  (svm_probability (tfidf_fit := tfidf_fit) svc_predict_proba).
Local Abbreviation similarity :=
  (calculate_similarity_score tfidf_fit_transform cosine).
Local Abbreviation score :=
  (detect_plagiarism svc_predict_proba tfidf_fit_transform cosine).
Local Abbreviation report :=
  (get_detailed_report svc_predict_proba tfidf_fit_transform cosine).

Lemma same_model_sym (w1 w2 : world) : same_model w1 w2 -> same_model w2 w1.
Proof. unfold same_model. intuition. Qed.

Lemma same_but_fit_refl (w : world) : same_but_fit w w.
Proof. unfold same_but_fit, same_model. intuition. Qed.

Lemma same_but_fit_trans (w1 w2 w3 : world) :
  same_but_fit w1 w2 -> same_but_fit w2 w3 -> same_but_fit w1 w3.
Proof. unfold same_but_fit, same_model. intuition congruence. Qed.

Lemma same_but_fit_model (w1 w2 : world) :
  same_but_fit w1 w2 -> same_model w1 w2.
Proof. now intros [H _]. Qed.

Lemma same_but_fit_refit (w : world) (f : tfidf_fit) :
  same_but_fit w
    (set_self
       (set_vectorizer
          {| params := params (vectorizer (self w)); fitted := Some f |}) w).
Proof. unfold same_but_fit, same_model. simpl. intuition. Qed.

(** The classifier step returns, leaves the state as it is, and its value
    is the entry [0][1] of the prediction, or 0 when that raised. *)
Lemma svm_probability_spec (features : list float) (w : world) :
  exists p,
    probability features w = (Ok p, w) /\
    (p = 0 \/
     exists proba proba0,
       svc_predict_proba (svm_model (self w)) [features] = Ok proba /\
       nth_error proba 0 = Some proba0 /\
       nth_error proba0 1 = Some p).
Proof.
  unfold svm_probability, index. unfold_method.
  destruct (svc_predict_proba (svm_model (self w)) [features])
    as [proba|e] eqn:E; [|exists 0; auto].
  destruct (nth_error proba 0) as [proba0|] eqn:E0; [|exists 0; auto].
  destruct (nth_error proba0 1) as [p|] eqn:E1; [|exists 0; auto].
  exists p. split; [reflexivity|]. right. now exists proba, proba0.
Qed.

Lemma svm_probability_same_model (features : list float) (w1 w2 : world) :
  svm_model (self w1) = svm_model (self w2) ->
  fst (probability features w1) = fst (probability features w2).
Proof.
  intros H. unfold svm_probability, index. unfold_method. rewrite H.
  destruct (svc_predict_proba (svm_model (self w2)) [features])
    as [proba|e]; [|reflexivity].
  destruct (nth_error proba 0) as [proba0|]; [|reflexivity].
  now destruct (nth_error proba0 1).
Qed.

(** The similarity step returns, and changes the state at most in what the
    vectorizer keeps from its last fit. *)
Lemma similarity_total (text : str) (w : world) :
  exists s w', similarity text w = (Ok s, w') /\ same_but_fit w w'.
Proof.
  unfold calculate_similarity_score, vectorizer_fit_transform.
  unfold_method.
  destruct (reference_texts (self w)) as [|r refs] eqn:R.
  - exists 0, w. split; [reflexivity | apply same_but_fit_refl].
  - destruct (tfidf_fit_transform _ _) as [[f m]|e].
    + destruct (cosine_similarity cosine (slice_last m) (slice_init m))
        as [sims|e1].
      * destruct (np_max sims) as [s|e2]; eexists; eexists;
          (split; [reflexivity | apply same_but_fit_refit]).
      * eexists; eexists. split; [reflexivity | apply same_but_fit_refit].
    + exists 0, w. split; [reflexivity | apply same_but_fit_refl].
Qed.

Lemma similarity_same_model (text : str) (w1 w2 : world) :
  same_model w1 w2 ->
  fst (similarity text w1) = fst (similarity text w2).
Proof.
  intros (_ & Hp & Hr).
  unfold calculate_similarity_score, vectorizer_fit_transform.
  unfold_method. cbv zeta. rewrite Hr.
  destruct (reference_texts (self w2)) as [|r refs]; [reflexivity|].
  cbv beta. rewrite Hp.
  destruct (tfidf_fit_transform _ _) as [[f m]|e]; [|reflexivity].
  destruct (cosine_similarity cosine (slice_last m) (slice_init m))
    as [sims|e1]; [|reflexivity].
  now destruct (np_max sims).
Qed.

(** [detect_plagiarism] in terms of its two steps. *)
Lemma score_steps (text : str) (w : world) :
  too_short text = false ->
  exists p s w',
    probability (extract_features (preprocess_text text)) w = (Ok p, w) /\
    similarity text w = (Ok s, w') /\
    same_but_fit w w' /\
    score text w =
      (Ok (py_min ((p * (6 # 10) + s * (4 # 10)) * 100) 100), w').
Proof.
  intros Hshort.
  destruct (svm_probability_spec (extract_features (preprocess_text text)) w)
    as (p & Hp & _).
  destruct (similarity_total text w) as (s & w' & Hs & Hw).
  exists p, s, w'. repeat (split; [assumption|]).
  unfold detect_plagiarism. rewrite Hshort.
  unfold bind at 1. rewrite Hp.
  unfold bind at 1. rewrite Hs. reflexivity.
Qed.

Lemma score_total (text : str) (w : world) :
  exists v w', score text w = (Ok v, w') /\ same_but_fit w w'.
Proof.
  destruct (too_short text) eqn:Hshort.
  - exists 0, w. unfold detect_plagiarism. rewrite Hshort.
    split; [reflexivity | apply same_but_fit_refl].
  - destruct (score_steps text w Hshort) as (p & s & w' & _ & _ & Hw & E).
    eauto.
Qed.

Lemma score_same_model (text : str) (w1 w2 : world) :
  same_model w1 w2 -> fst (score text w1) = fst (score text w2).
Proof.
  intros H.
  destruct (too_short text) eqn:Hshort.
  - unfold detect_plagiarism. now rewrite Hshort.
  - destruct (score_steps text w1 Hshort) as (p1 & s1 & w1' & Hp1 & Hs1 & _ & ->).
    destruct (score_steps text w2 Hshort) as (p2 & s2 & w2' & Hp2 & Hs2 & _ & ->).
    pose proof (svm_probability_same_model
                  (extract_features (preprocess_text text)) w1 w2) as Ep.
    rewrite Hp1, Hp2 in Ep.
    pose proof (similarity_same_model text w1 w2 H) as Es.
    rewrite Hs1, Hs2 in Es. simpl in *.
    destruct H as (Hm & _). specialize (Ep Hm).
    now inversion Ep; inversion Es.
Qed.

(** [get_detailed_report] in terms of its steps. *)
Lemma report_steps (text : str) (w : world) :
  exists v w1 s w2,
    score text w = (Ok v, w1) /\
    similarity text w1 = (Ok s, w2) /\
    same_but_fit w w2 /\
    report text w =
      (Ok {| plagiarism_score := py_round2 v;
             similarity_score := py_round2 (s * 100);
             risk_level := fst (risk_of v);
             risk_color := snd (risk_of v);
             word_count := length (split (preprocess_text text));
             character_count := length (preprocess_text text);
             unique_words := len_set (split (preprocess_text text));
             recommendations := get_recommendations v;
             timestamp := clock w2 |}, w2).
Proof.
  destruct (score_total text w) as (v & w1 & Hv & Hw1).
  destruct (similarity_total text w1) as (s & w2 & Hs & Hw2).
  exists v, w1, s, w2. split; [exact Hv|]. split; [exact Hs|].
  split; [exact (same_but_fit_trans _ _ _ Hw1 Hw2)|].
  unfold get_detailed_report.
  unfold bind at 1. rewrite Hv.
  unfold bind at 1. rewrite Hs.
  now destruct (risk_of v).
Qed.

Lemma too_short_spec (text : str) :
  too_short text = true <-> text = [] \/ (length (strip text) < 10)%nat.
Proof.
  unfold too_short. destruct text as [|c text].
  - split; auto.
  - rewrite Nat.ltb_lt. split; [auto|]. now intros [H | H].
Qed.

Lemma Qltb_compat_l (a a' b : Q) : a == a' -> Qltb a b = Qltb a' b.
Proof.
  intros E. destruct (Qltb a' b) eqn:H.
  - apply Qltb_true. apply Qltb_true in H. now rewrite E.
  - apply Qltb_false. apply Qltb_false in H. now rewrite E.
Qed.

Lemma Qltb_compat_r (a b b' : Q) : b == b' -> Qltb a b = Qltb a b'.
Proof.
  intros E. destruct (Qltb a b') eqn:H.
  - apply Qltb_true. apply Qltb_true in H. now rewrite E.
  - apply Qltb_false. apply Qltb_false in H. now rewrite E.
Qed.

Lemma clamp_compat (a a' lo hi : Q) : a == a' -> clamp a lo hi == clamp a' lo hi.
Proof.
  intros E. unfold clamp.
  rewrite (Qltb_compat_l a a' lo E), (Qltb_compat_r hi a a' E).
  destruct (Qltb a' lo); [reflexivity|]. now destruct (Qltb hi a').
Qed.

Lemma py_min_compat (a a' b : Q) : a == a' -> py_min a b == py_min a' b.
Proof.
  intros E. unfold py_min. rewrite (Qltb_compat_r b a a' E).
  now destruct (Qltb b a').
Qed.

Lemma probability_range (features : list float) (w w' : world) (p : Q) :
  (forall m X proba,
     svc_predict_proba m X = Ok proba ->
     Forall (Forall (fun q => 0 <= q <= 1)) proba) ->
  probability features w = (Ok p, w') -> 0 <= p <= 1.
Proof.
  intros Hrange Hp.
  destruct (svm_probability_spec features w) as (p' & E & Hp').
  rewrite E in Hp. inversion Hp; subst p' w'. clear Hp.
  destruct Hp' as [-> | (proba & proba0 & Hpr & H0 & H1)].
  - split; [apply Qle_refl | discriminate].
  - specialize (Hrange _ _ _ Hpr). rewrite Forall_forall in Hrange.
    specialize (Hrange _ (nth_error_In _ _ H0)).
    rewrite Forall_forall in Hrange.
    exact (Hrange _ (nth_error_In _ _ H1)).
Qed.

Lemma cosine_similarity_entries (X Y : list row) (sims : list (list Q))
      (s : Q) :
  cosine_similarity cosine X Y = Ok sims ->
  In s (concat sims) -> exists x y, In x X /\ In y Y /\ s = cosine x y.
Proof.
  unfold cosine_similarity. intros E Hs.
  assert (sims = map (fun x => map (cosine x) Y) X) as ->.
  { destruct X; [discriminate|]. destruct Y; [discriminate|].
    now inversion E. }
  apply in_concat in Hs. destruct Hs as (l & Hl & Hs).
  apply in_map_iff in Hl. destruct Hl as (x & <- & Hx).
  apply in_map_iff in Hs. destruct Hs as (y & <- & Hy).
  now exists x, y.
Qed.

Lemma similarity_range (text : str) (w w' : world) (s : Q) :
  (forall x y, 0 <= cosine x y <= 1) ->
  similarity text w = (Ok s, w') -> 0 <= s <= 1.
Proof.
  intros Hcos. unfold calculate_similarity_score, vectorizer_fit_transform.
  unfold_method.
  assert (0 <= 0 <= 1) as Hzero by (split; [apply Qle_refl | discriminate]).
  destruct (reference_texts (self w)) as [|r refs].
  - intros E. inversion E. exact Hzero.
  - cbv beta zeta.
    destruct (tfidf_fit_transform _ _) as [[f m]|e].
    + destruct (cosine_similarity cosine (slice_last m) (slice_init m))
        as [sims|e1] eqn:Ec.
      * unfold np_max. destruct (concat sims) as [|x xs] eqn:Ex.
        -- intros E. inversion E. exact Hzero.
        -- intros E. inversion E. subst.
           pose proof (fold_Qmaxb_In xs x) as Hin. rewrite <- Ex in Hin.
           destruct (cosine_similarity_entries _ _ _ _ Ec Hin)
             as (a & b & _ & _ & ->).
           apply Hcos.
      * intros E. inversion E. exact Hzero.
    + intros E. inversion E. exact Hzero.
Qed.



Lemma risk_of_buckets (v : Q) :
  (v < 15 -> fst (risk_of v) = "Low") /\
  (15 <= v -> v < 30 -> fst (risk_of v) = "Medium") /\
  (30 <= v -> v < 50 -> fst (risk_of v) = "High") /\
  (50 <= v -> fst (risk_of v) = "Very High").
Proof.
  unfold risk_of.
  destruct (Qltb v 15) eqn:E15; [apply Qltb_true in E15 | apply Qltb_false in E15];
  (destruct (Qltb v 30) eqn:E30; [apply Qltb_true in E30 | apply Qltb_false in E30]);
  (destruct (Qltb v 50) eqn:E50; [apply Qltb_true in E50 | apply Qltb_false in E50]);
  simpl; repeat split; intros; try reflexivity; exfalso; lra.
Qed.

Lemma risk_of_monotone (x y : Q) :
  x <= y ->
  (risk_rank (fst (risk_of x)) <= risk_rank (fst (risk_of y)))%nat.
Proof.
  intros Hxy. unfold risk_of.
  destruct (Qltb x 15) eqn:X15; [apply Qltb_true in X15 | apply Qltb_false in X15];
  (destruct (Qltb x 30) eqn:X30; [apply Qltb_true in X30 | apply Qltb_false in X30]);
  (destruct (Qltb x 50) eqn:X50; [apply Qltb_true in X50 | apply Qltb_false in X50]);
  (destruct (Qltb y 15) eqn:Y15; [apply Qltb_true in Y15 | apply Qltb_false in Y15]);
  (destruct (Qltb y 30) eqn:Y30; [apply Qltb_true in Y30 | apply Qltb_false in Y30]);
  (destruct (Qltb y 50) eqn:Y50; [apply Qltb_true in Y50 | apply Qltb_false in Y50]);
  cbn; try lia; exfalso; lra.
Qed.

(** C3: the risk level of the report is the bucket of the score that
    [detect_plagiarism] returns: "Low" below 15, "Medium" on [15,30),
    "High" on [30,50), "Very High" from 50 on; so it never decreases when
    the score grows. *)
Theorem risk_level_step_function (text : str) (w : world) :
  (exists v w1 r w2,
     score text w = (Ok v, w1) /\
     report text w = (Ok r, w2) /\
     risk_level r = fst (risk_of v)) /\
  (forall v : Q,
     (v < 15 -> fst (risk_of v) = "Low") /\
     (15 <= v -> v < 30 -> fst (risk_of v) = "Medium") /\
     (30 <= v -> v < 50 -> fst (risk_of v) = "High") /\
     (50 <= v -> fst (risk_of v) = "Very High")) /\
  (forall x y : Q,
     x <= y ->
     (risk_rank (fst (risk_of x)) <= risk_rank (fst (risk_of y)))%nat).
Proof.
  split; [|split; [exact risk_of_buckets | exact risk_of_monotone]].
  destruct (report_steps text w) as (v & w1 & s & w2 & Hv & _ & _ & Hr).
  exists v, w1. eexists. exists w2. now rewrite Hv, Hr.
Qed.

(** When the fit succeeds on a corpus that is not empty, the similarity is
    the largest cosine between the last row and the rows before it. *)
Lemma similarity_max (text : str) (w : world) (f : tfidf_fit)
      (ref_rows : list row) (candidate : row) :
  reference_texts (self w) <> [] ->
  ref_rows <> [] ->
  tfidf_fit_transform (params (vectorizer (self w)))
    (reference_texts (self w) ++ [preprocess_text text])
  = Ok (f, ref_rows ++ [candidate]) ->
  exists s w',
    similarity text w = (Ok s, w') /\
    (exists r, In r ref_rows /\ s = cosine candidate r) /\
    (forall r, In r ref_rows -> cosine candidate r <= s).
Proof.
  intros Hrefs Hrows Hfit.
  unfold calculate_similarity_score, vectorizer_fit_transform.
  unfold_method.
  destruct (reference_texts (self w)) as [|t refs]; [contradiction|].
  cbv beta zeta. rewrite Hfit.
  rewrite slice_last_snoc, slice_init_snoc.
  destruct ref_rows as [|r0 rows]; [contradiction|].
  unfold cosine_similarity, np_max. simpl concat. rewrite app_nil_r.
  eexists. eexists. split; [reflexivity|]. split.
  - destruct (fold_Qmaxb_In (map (cosine candidate) rows)
                (cosine candidate r0)) as [H | H].
    + exists r0. split; [now left | now rewrite <- H].
    + apply in_map_iff in H. destruct H as (r & H & Hr).
      exists r. split; [now right | now rewrite H].
  - intros r Hr. apply fold_Qmaxb_ge.
    destruct Hr as [-> | Hr]; [now left|].
    right. now apply in_map.
Qed.


(** C8: two calls of [detect_plagiarism] on the same text, one after the
    other, return the same value, although the first call refits the
    vectorizer; the same holds with reports or scores of other texts in
    between, and in any state with the same classifier, vectorizer
    arguments and corpus. *)
Theorem detect_plagiarism_idempotent (text : str) (w : world) :
  (exists v w1 w2,
     score text w = (Ok v, w1) /\ score text w1 = (Ok v, w2)) /\
  (forall other,
     fst (score text (snd (score other w))) = fst (score text w) /\
     fst (score text (snd (report other w))) = fst (score text w)) /\
  (forall w', same_model w w' -> fst (score text w') = fst (score text w)).
Proof.
  split; [|split].
  - destruct (score_total text w) as (v & w1 & Hv & Hw1).
    destruct (score_total text w1) as (v' & w2 & Hv' & _).
    pose proof (score_same_model text w w1 (same_but_fit_model _ _ Hw1)) as E.
    rewrite Hv, Hv' in E. simpl in E. injection E as <-.
    now exists v, w1, w2.
  - intros other. split.
    + destruct (score_total other w) as (v & w1 & Hv & Hw1).
      rewrite Hv. simpl. symmetry.
      apply score_same_model, same_but_fit_model, Hw1.
    + destruct (report_steps other w) as (v & w1 & s & w2 & _ & _ & Hw & Hr).
      rewrite Hr. simpl. symmetry.
      apply score_same_model, same_but_fit_model, Hw.
  - intros w' H. symmetry. now apply score_same_model.
Qed.

(** C10: the fields word_count, character_count and unique_words of the
    report are the number of tokens, the length and the number of distinct
    tokens of the normalized text; a text made only of characters that the
    normalizer deletes has all three equal to 0.  When whitespace stands
    among the deleted characters, the two word counts are still 0. *)
Theorem report_counts_normalized (text : str) (w : world) :
  exists r w',
    report text w = (Ok r, w') /\
    word_count r = length (split (preprocess_text text)) /\
    character_count r = length (preprocess_text text) /\
    unique_words r = len_set (split (preprocess_text text)) /\
    (forallb is_special text = true ->
     word_count r = 0%nat /\ character_count r = 0%nat /\
     unique_words r = 0%nat) /\
    (forallb (fun c => is_special c || isspace c) text = true ->
     word_count r = 0%nat /\ unique_words r = 0%nat).
Proof.
  destruct (report_steps text w) as (v & w1 & s & w2 & _ & _ & _ & Hr).
  eexists. exists w2. split; [exact Hr|]. simpl.
  repeat (split; [reflexivity|]).
  split.
  - intros H. now rewrite (preprocess_text_all_special text H).
  - intros H. apply preprocess_text_blank_only, split_all_space in H.
    now rewrite H.
Qed.

(** *** The model store *)

Lemma save_model_spec (w : world) :
  save_model w =
    (Ok tt,
     write_pickle (model_path (self w))
       {| md_svm_model := svm_model (self w);
          md_vectorizer := vectorizer (self w);
          md_reference_texts := reference_texts (self w) |} w).
Proof. reflexivity. Qed.

Lemma load_model_found (w : world) (data : model_data SVC tfidf_fit) :
  disk w (model_path (self w)) = Some data ->
  load_model w =
    (Ok true,
     set_self
       (fun d =>
          set_reference_texts (md_reference_texts data)
            (set_vectorizer (md_vectorizer data)
               (set_svm_model (md_svm_model data) d))) w).
Proof.
  intros H. unfold load_model, read_pickle. unfold_method. now rewrite H.
Qed.

Lemma load_model_missing (w : world) :
  disk w (model_path (self w)) = None -> load_model w = (Ok false, w).
Proof.
  intros H. unfold load_model, read_pickle. unfold_method. now rewrite H.
Qed.

(** C7: [add_reference_text] normalizes the text; when the normalized text
    is in the corpus already, nothing changes, neither in memory nor on
    disk; otherwise it is appended to the corpus and the classifier, the
    vectorizer and the new corpus are written to the model file.  Scoring,
    reporting, the similarity step and saving leave the corpus as it is,
    and the first three, like loading, leave the disk as it is. *)
Theorem add_reference_text_spec (text : str) (w : world) :
  (In (preprocess_text text) (reference_texts (self w)) ->
   add_reference_text text w = (Ok tt, w)) /\
  (~ In (preprocess_text text) (reference_texts (self w)) ->
   exists w',
     add_reference_text text w = (Ok tt, w') /\
     reference_texts (self w') =
       reference_texts (self w) ++ [preprocess_text text] /\
     svm_model (self w') = svm_model (self w) /\
     vectorizer (self w') = vectorizer (self w) /\
     model_path (self w') = model_path (self w) /\
     disk w' (model_path (self w)) =
       Some {| md_svm_model := svm_model (self w);
               md_vectorizer := vectorizer (self w);
               md_reference_texts :=
                 reference_texts (self w) ++ [preprocess_text text] |} /\
     (forall path,
        path <> model_path (self w) -> disk w' path = disk w path)) /\
  (forall other,
     (reference_texts (self (snd (score other w))) = reference_texts (self w)
      /\ disk (snd (score other w)) = disk w) /\
     (reference_texts (self (snd (report other w))) = reference_texts (self w)
      /\ disk (snd (report other w)) = disk w) /\
     (reference_texts (self (snd (similarity other w)))
        = reference_texts (self w)
      /\ disk (snd (similarity other w)) = disk w)) /\
  reference_texts (self (snd (save_model w))) = reference_texts (self w) /\
  disk (snd (load_model w)) = disk w.
Proof.
  split; [|split; [|split; [|split; [reflexivity|]]]];
    [| | |unfold load_model, read_pickle; unfold_method;
          now destruct (disk w (model_path (self w)))].
  - intros Hin. unfold add_reference_text. unfold_method.
    now destruct (in_dec str_eq_dec _ _).
  - intros Hnot. unfold add_reference_text, save_model. unfold_method.
    destruct (in_dec str_eq_dec _ _) as [Hin|_]; [contradiction|].
    eexists. split; [reflexivity|]. simpl.
    repeat (split; [reflexivity|]).
    split.
    + now rewrite String.eqb_refl.
    + intros path Hpath. apply String.eqb_neq in Hpath. now rewrite Hpath.
  - intros other. split; [|split].
    + destruct (score_total other w) as (v & w1 & -> & (_ & _ & Hr) & Hd).
      simpl. intuition.
    + destruct (report_steps other w)
        as (v & w1 & s & w2 & _ & _ & ((_ & _ & Hr) & Hd) & ->).
      simpl. intuition.
    + destruct (similarity_total other w) as (s & w1 & -> & (_ & _ & Hr) & Hd).
      simpl. intuition.
Qed.

(** C9: after [save_model], a detector with the same model path that runs
    [load_model] holds the classifier, the vectorizer and the corpus that
    were saved, and [detect_plagiarism] gives a probe text the value it
    gives it in the state that was saved. *)
Theorem save_load_roundtrip (w : world) (d : PlagiarismDetector SVC tfidf_fit)
        (probe : str) :
  model_path d = model_path (self w) ->
  exists w1 w2,
    save_model w = (Ok tt, w1) /\
    load_model {| self := d; disk := disk w1; clock := clock w1 |}
      = (Ok true, w2) /\
    svm_model (self w2) = svm_model (self w) /\
    vectorizer (self w2) = vectorizer (self w) /\
    reference_texts (self w2) = reference_texts (self w) /\
    fst (score probe w2) = fst (score probe w).
Proof.
  intros Hpath. rewrite save_model_spec.
  eexists. eexists. split; [reflexivity|].
  split.
  - apply load_model_found. simpl. rewrite Hpath. now rewrite String.eqb_refl.
  - simpl. repeat (split; [reflexivity|]).
    apply score_same_model. unfold same_model. simpl. auto.
Qed.

End Scoring.

(** ** The pipeline on concrete inputs *)

Section Examples.

Lemma toy_predict_proba_range (m : Toy.SVC) (X : list (list float))
      (proba : list (list Q)) :
  Toy.predict_proba m X = Ok proba ->
  Forall (Forall (fun q => 0 <= q <= 1)) proba.
Proof.
  unfold Toy.predict_proba. destruct (existsb Toy.has_nan X); [discriminate|].
  intros [= <-]. apply Forall_map, Forall_forall. intros x _.
  assert (0 <= Toy.proba1 m <= 1) as [H0 H1].
  { unfold Toy.proba1.
    destruct (Qltb m 0) eqn:E0; [split; discriminate|].
    destruct (Qltb 1 m) eqn:E1; [split; discriminate|].
    apply Qltb_false in E0, E1. now split. }
  repeat constructor; lra.
Qed.

Lemma toy_cosine_range (x y : Toy.row) : 0 <= Toy.cosine x y <= 1.
Proof.
  unfold Toy.cosine. destruct x; [split; discriminate|].
  destruct (list_eq_dec str_eq_dec _ _); split; discriminate.
Qed.

Lemma toy_fit_transform_rows (p : tfidf_params) (texts : list str)
      (f : Toy.tfidf_fit) (m : list Toy.row) :
  Toy.fit_transform p texts = Ok (f, m) -> length m = length texts.
Proof.
  unfold Toy.fit_transform.
  destruct (concat (map split texts)); [discriminate|].
  intros [= _ <-]. apply length_map.
Qed.




Lemma save_load_roundtrip_witness :
  exists w1 w2,
    save_model
      (Toy.mk_world (1 # 10) [lit "the quick brown fox"; lit "hello world"])
    = (Ok tt, w1) /\
    load_model
      {| self := self (Toy.mk_world (7 # 10) []);
         disk := disk w1; clock := clock w1 |} = (Ok true, w2) /\
    reference_texts (self w2) = [lit "the quick brown fox"; lit "hello world"] /\
    fst (Toy.detect_plagiarism (lit "The quick  brown Fox") w2) =
    fst (Toy.detect_plagiarism (lit "The quick  brown Fox")
           (Toy.mk_world (1 # 10)
              [lit "the quick brown fox"; lit "hello world"])).
Proof.
  destruct (save_load_roundtrip Toy.predict_proba Toy.fit_transform Toy.cosine
              (Toy.mk_world (1 # 10)
                 [lit "the quick brown fox"; lit "hello world"])
              (self (Toy.mk_world (7 # 10) []))
              (lit "The quick  brown Fox") eq_refl)
    as (w1 & w2 & Hs & Hl & _ & _ & Hr & Hv).
  exists w1, w2. repeat (split; [assumption|]). exact Hv.
Defined.

Lemma add_reference_text_spec_witness :
  exists w',
    add_reference_text (lit "Hello,  World!")
      (Toy.mk_world (1 # 10) [lit "the quick brown fox"]) = (Ok tt, w') /\
    reference_texts (self w') = [lit "the quick brown fox"; lit "hello, world!"] /\
    add_reference_text (lit "  hello, WORLD! ") w' = (Ok tt, w').
Proof.
  destruct (add_reference_text_spec Toy.predict_proba Toy.fit_transform
              Toy.cosine (lit "Hello,  World!")
              (Toy.mk_world (1 # 10) [lit "the quick brown fox"]))
    as (_ & Hnew & _).
  destruct Hnew as (w' & E & Hr & _).
  { vm_compute. intros [H | []]. discriminate. }
  exists w'. split; [exact E|]. split; [exact Hr|].
  apply (add_reference_text_spec Toy.predict_proba Toy.fit_transform
           Toy.cosine (lit "  hello, WORLD! ") w').
  rewrite Hr. right. left. reflexivity.
Defined.

Lemma report_counts_normalized_witness :
  exists r w',
    Toy.get_detailed_report (lit "@#$%^&*()[]{}<>")
      (Toy.mk_world (1 # 10) [lit "the quick brown fox"]) = (Ok r, w') /\
    word_count r = 0%nat /\ character_count r = 0%nat /\
    unique_words r = 0%nat.
Proof.
  destruct (report_counts_normalized Toy.predict_proba Toy.fit_transform
              Toy.cosine (lit "@#$%^&*()[]{}<>")
              (Toy.mk_world (1 # 10) [lit "the quick brown fox"]))
    as (r & w' & E & _ & _ & _ & H & _).
  exists r, w'. split; [exact E|]. apply H. reflexivity.
Defined.

(** The counts follow the normalized text, not the raw one: here the raw
    text has 3 characters and the normalized one is a single blank. *)
Lemma report_counts_blank_between_deleted :
  exists r w',
    Toy.get_detailed_report (lit "@ @")
      (Toy.mk_world (1 # 10) [lit "the quick brown fox"]) = (Ok r, w') /\
    word_count r = 0%nat /\ character_count r = 1%nat.
Proof.
  eexists. eexists. split; [lazy; reflexivity|]. now split.
Qed.

End Examples.

(** ** Training *)

Section Training.

Context {SVC : Type} (svc_new : SVC)
        (svc_fit : SVC -> list (list float) -> list Z -> SVC)
        (train_test_split :
           list (list float) -> list Z ->
           (list (list float) * list (list float)) * (list Z * list Z))
        {tfidf_fit : Type}.

Local Abbreviation world := (world SVC tfidf_fit).

(** Training returns; it sets the corpus to the twenty normalized
    bootstrap sentences and writes the model file. *)
Lemma train_model_spec (w : world) :
  exists w',
    train_model svc_fit train_test_split w = (Ok tt, w') /\
    reference_texts (self w') =
      map preprocess_text (fst generate_training_data) /\
    length (reference_texts (self w')) = 20%nat /\
    vectorizer (self w') = vectorizer (self w) /\
    disk w' (model_path (self w)) =
      Some {| md_svm_model := svm_model (self w');
              md_vectorizer := vectorizer (self w');
              md_reference_texts := reference_texts (self w') |}.
Proof.
  unfold train_model.
  destruct generate_training_data as [texts labels] eqn:G.
  destruct (train_test_split _ _) as [[X_train X_test] [y_train y_test]].
  unfold save_model. unfold_method. simpl.
  eexists. split; [reflexivity|]. simpl.
  split; [reflexivity|]. split.
  - rewrite length_map.
    change texts with (fst (texts, labels)). rewrite <- G. reflexivity.
  - split; [reflexivity|]. now rewrite String.eqb_refl.
Qed.

Lemma load_or_create_missing (w : world) :
  disk w (model_path (self w)) = None ->
  load_or_create_model svc_fit train_test_split w
  = train_model svc_fit train_test_split w.
Proof.
  intros H. unfold load_or_create_model, bind.
  now rewrite (load_model_missing w H).
Qed.

Lemma load_or_create_found (w : world) (data : model_data SVC tfidf_fit) :
  disk w (model_path (self w)) = Some data ->
  load_or_create_model svc_fit train_test_split w
  = (Ok tt,
     set_self
       (fun d =>
          set_reference_texts (md_reference_texts data)
            (set_vectorizer (md_vectorizer data)
               (set_svm_model (md_svm_model data) d))) w).
Proof.
  intros H. unfold load_or_create_model, bind.
  now rewrite (load_model_found w data H).
Qed.

(** A detector built where no model file exists trains one; a detector
    built afterwards on the same path loads what the first one wrote. *)
Lemma init_creates_model (path : string) (w : world) :
  disk w path = None ->
  exists w',
    init svc_new svc_fit train_test_split path w = (Ok tt, w') /\
    length (reference_texts (self w')) = 20%nat /\
    exists w'',
      init svc_new svc_fit train_test_split path w' = (Ok tt, w'') /\
      reference_texts (self w'') = reference_texts (self w') /\
      svm_model (self w'') = svm_model (self w') /\
      disk w'' = disk w'.
Proof.
  intros Hnone. unfold init, bind, modify.
  rewrite load_or_create_missing by exact Hnone.
  match goal with |- context [train_model _ _ ?w0] =>
    destruct (train_model_spec w0) as (w' & Et & Hr & Hl & Hv & Hd)
  end.
  exists w'. split; [exact Et|]. split; [exact Hl|].
  simpl in Hd.
  erewrite load_or_create_found by (simpl; exact Hd).
  eexists. split; [reflexivity|]. simpl. auto.
Qed.

End Training.

(** * Further properties of the detector *)

Section NormalForm.

Lemma is_kept_lower_char_eq (c : ascii) : is_kept (lower_char c) = is_kept c.
Proof.
  destruct c as [[] [] [] [] [] [] [] []]; vm_compute; reflexivity.
Qed.

Lemma lower_char_blank : lower_char blank = blank.
Proof. reflexivity. Qed.

Lemma strip_idem (s : str) : strip (strip s) = strip s.
Proof. apply stripped_trimmed, strip_stripped. Qed.

Lemma lstrip_lower (s : str) : lstrip (lower s) = lower (lstrip s).
Proof.
  unfold lower. induction s as [|c s IH]; [reflexivity|].
  simpl. rewrite isspace_lower_char. now destruct (isspace c).
Qed.

Lemma strip_lower (s : str) : strip (lower s) = lower (strip s).
Proof.
  unfold strip, rstrip. rewrite lstrip_lower.
  unfold lower at 1. rewrite <- map_rev. fold (lower (rev (lstrip s))).
  rewrite lstrip_lower. unfold lower. now rewrite map_rev.
Qed.

Lemma collapse_lower (b : bool) (s : str) :
  re_sub_runs isspace blank b (lower s)
  = lower (re_sub_runs isspace blank b s).
Proof.
  unfold lower. revert b. induction s as [|c s IH]; intros b; [reflexivity|].
  simpl. rewrite isspace_lower_char.
  destruct (isspace c); [destruct b|]; simpl; now rewrite IH.
Qed.

Lemma re_delete_lower (s : str) :
  re_delete is_special (lower s) = lower (re_delete is_special s).
Proof.
  unfold re_delete, lower, is_special.
  induction s as [|c s IH]; [reflexivity|].
  simpl. rewrite is_kept_lower_char_eq.
  destruct (is_kept c); simpl; now rewrite IH.
Qed.

Lemma lower_idem (s : str) : lower (lower s) = lower s.
Proof. apply lower_is_lower. Qed.

(** Normalizing ignores the case of the input and the whitespace around
    it. *)
Lemma preprocess_text_lower_input (text : str) :
  preprocess_text (lower text) = preprocess_text text.
Proof.
  unfold preprocess_text.
  now rewrite strip_lower, collapse_lower, re_delete_lower, lower_idem.
Qed.

Lemma preprocess_text_strip_input (text : str) :
  preprocess_text (strip text) = preprocess_text text.
Proof. unfold preprocess_text. now rewrite strip_idem. Qed.

Lemma length_lower (s : str) : length (lower s) = length s.
Proof. apply length_map. Qed.

End NormalForm.

Section ScoringMore.

Context {SVC : Type}
        (svc_predict_proba :
           SVC -> list (list float) -> result (list (list Q)))
        {tfidf_fit row : Type}
        (tfidf_fit_transform :
           tfidf_params -> list str -> result (tfidf_fit * list row))
        (cosine : row -> row -> Q).

Local Abbreviation world := (world SVC tfidf_fit).
Local Abbreviation probability :=
  (svm_probability (tfidf_fit := tfidf_fit) svc_predict_proba).
Local Abbreviation similarity :=
  (calculate_similarity_score (SVC := SVC) tfidf_fit_transform cosine).
Local Abbreviation score :=
  (detect_plagiarism svc_predict_proba tfidf_fit_transform cosine).
Local Abbreviation report :=
  (get_detailed_report svc_predict_proba tfidf_fit_transform cosine).

Lemma too_short_strip_input (text : str) :
  too_short (strip text) = too_short text.
Proof.
  unfold too_short. rewrite strip_idem.
  destruct text as [|c text]; [reflexivity|].
  destruct (strip (c :: text)) eqn:E; reflexivity.
Qed.

Lemma too_short_lower_input (text : str) :
  too_short (lower text) = too_short text.
Proof.
  unfold too_short. rewrite strip_lower, length_lower.
  now destruct text.
Qed.

(** The methods read a text through its guard and its normal form only. *)
Lemma similarity_normal_form (t1 t2 : str) :
  preprocess_text t1 = preprocess_text t2 ->
  similarity t1 = similarity t2.
Proof.
  intros E. unfold calculate_similarity_score. now rewrite E.
Qed.

Lemma score_normal_form (t1 t2 : str) :
  too_short t1 = too_short t2 ->
  preprocess_text t1 = preprocess_text t2 ->
  score t1 = score t2.
Proof.
  intros Es Ep. unfold detect_plagiarism.
  now rewrite Es, Ep, (similarity_normal_form t1 t2 Ep).
Qed.

Lemma report_normal_form (t1 t2 : str) :
  too_short t1 = too_short t2 ->
  preprocess_text t1 = preprocess_text t2 ->
  report t1 = report t2.
Proof.
  intros Es Ep. unfold get_detailed_report.
  now rewrite Ep, (score_normal_form t1 t2 Es Ep),
    (similarity_normal_form t1 t2 Ep).
Qed.


(** X2: in every report the risk level, the colour and the list of
    recommendations belong together: the triple is one of the four rows of
    [risk_table], although the report computes the recommendations in a
    branch of their own. *)
Theorem report_risk_fields_agree (text : str) (w : world) :
  exists r w',
    report text w = (Ok r, w') /\
    In (risk_level r, risk_color r, recommendations r) risk_table.
Proof.
  destruct (report_steps svc_predict_proba tfidf_fit_transform cosine text w)
    as (v & w1 & s & w2 & _ & _ & _ & Hr).
  eexists. exists w2. split; [exact Hr|]. simpl.
  unfold risk_of, get_recommendations, risk_table.
  destruct (Qltb v 15); [now left|].
  destruct (Qltb v 30); [now right; left|].
  destruct (Qltb v 50); [now right; right; left|].
  now right; right; right; left.
Qed.

End ScoringMore.

Section FeatureBounds.

Lemma split_from_tokens (cur s : str) :
  Forall (fun t => t <> []) (split_from cur s).
Proof.
  revert cur. induction s as [|c s IH]; intros cur; simpl.
  - destruct cur as [|a cur]; constructor; [|constructor].
    intros H. apply (f_equal (@length ascii)) in H.
    rewrite length_rev in H. discriminate.
  - destruct (isspace c); [|apply IH].
    destruct cur as [|a cur]; [apply IH|].
    constructor; [|apply IH].
    intros H. apply (f_equal (@length ascii)) in H.
    rewrite length_rev in H. discriminate.
Qed.

(** The tokens hold the characters that are not whitespace, once each. *)
Lemma split_from_sum (cur s : str) :
  list_sum (map (@length ascii) (split_from cur s))
  = (length cur + length (filter (fun c => negb (isspace c)) s))%nat.
Proof.
  revert cur. induction s as [|c s IH]; intros cur; cbn [split_from filter].
  - destruct cur as [|a cur]; [reflexivity|].
    cbn [map]. unfold list_sum. cbn [fold_right].
    rewrite length_rev. cbn [length]. lia.
  - destruct (isspace c); cbn [negb].
    + destruct cur as [|a cur]; [apply (IH [])|].
      cbn [map]. unfold list_sum. cbn [fold_right].
      fold (list_sum (map (@length ascii) (split_from [] s))).
      rewrite length_rev, (IH []). cbn [length]. lia.
    + rewrite IH. cbn [length]. lia.
Qed.

Lemma tokens_count_le_sum (l : list str) :
  Forall (fun t => t <> []) l ->
  (length l <= list_sum (map (@length ascii) l))%nat.
Proof.
  induction 1 as [|t l Ht _ IH]; simpl; [lia|].
  destruct t; [contradiction|]. simpl. lia.
Qed.

Lemma split_sum_le (text : str) :
  (list_sum (map (@length ascii) (split text)) <= length text)%nat.
Proof.
  unfold split. rewrite split_from_sum. simpl. apply filter_length_le.
Qed.

Lemma split_count_le (text : str) : (length (split text) <= length text)%nat.
Proof.
  eapply Nat.le_trans; [|apply split_sum_le].
  apply tokens_count_le_sum, split_from_tokens.
Qed.

Lemma len_set_le (l : list str) : (len_set l <= length l)%nat.
Proof.
  unfold len_set. apply NoDup_incl_length; [apply NoDup_nodup|].
  intros x Hx. now apply nodup_In in Hx.
Qed.

Lemma len_set_pos (l : list str) : l <> [] -> (0 < len_set l)%nat.
Proof.
  unfold len_set. destruct l as [|t l]; [contradiction|]. intros _.
  assert (In t (nodup str_eq_dec (t :: l))) as H by (apply nodup_In; now left).
  destruct (nodup str_eq_dec (t :: l)); [destruct H | simpl; lia].
Qed.

Lemma re_split_runs_count (cls : ascii -> bool) (b : bool) (s : str) :
  (1 <= length (re_split_runs cls b s) <= length s + 1)%nat.
Proof.
  revert b. induction s as [|c s IH]; intros b; simpl; [lia|].
  destruct (cls c); [destruct b|].
  - specialize (IH true). lia.
  - specialize (IH true). simpl. lia.
  - specialize (IH false).
    destruct (re_split_runs cls false s); simpl in *; lia.
Qed.

Lemma of_nat_nonneg (n : nat) : 0 <= of_nat n.
Proof.
  unfold of_nat. change 0 with (inject_Z 0). rewrite <- Zle_Qle. lia.
Qed.

Lemma of_nat_pos (n : nat) : (0 < n)%nat -> 0 < of_nat n.
Proof.
  intros H. unfold of_nat. change 0 with (inject_Z 0).
  rewrite <- Zlt_Qlt. lia.
Qed.

Lemma of_nat_le (a b : nat) : (a <= b)%nat -> of_nat a <= of_nat b.
Proof. intros H. unfold of_nat. rewrite <- Zle_Qle. lia. Qed.

Lemma div_nat_eq (a b : nat) : div_nat a b == of_nat a / of_nat b.
Proof. unfold div_nat. apply Qred_correct. Qed.

Lemma div_nat_nonneg (a b : nat) : (0 < b)%nat -> 0 <= div_nat a b.
Proof.
  intros Hb. rewrite div_nat_eq.
  apply Qle_shift_div_l; [now apply of_nat_pos|].
  rewrite Qmult_0_l. apply of_nat_nonneg.
Qed.

Lemma div_nat_pos (a b : nat) : (0 < a)%nat -> (0 < b)%nat -> 0 < div_nat a b.
Proof.
  intros Ha Hb. rewrite div_nat_eq.
  apply Qlt_shift_div_l; [now apply of_nat_pos|].
  rewrite Qmult_0_l. now apply of_nat_pos.
Qed.

Lemma div_nat_le_1 (a b : nat) :
  (0 < b)%nat -> (a <= b)%nat -> div_nat a b <= 1.
Proof.
  intros Hb Hab. rewrite div_nat_eq.
  apply Qle_shift_div_r; [now apply of_nat_pos|].
  rewrite Qmult_1_l. now apply of_nat_le.
Qed.

Lemma div_nat_ge_1 (a b : nat) :
  (0 < b)%nat -> (b <= a)%nat -> 1 <= div_nat a b.
Proof.
  intros Hb Hab. rewrite div_nat_eq.
  apply Qle_shift_div_l; [now apply of_nat_pos|].
  rewrite Qmult_1_l. now apply of_nat_le.
Qed.

Lemma div_nat_le_num (a b : nat) :
  (0 < b)%nat -> div_nat a b <= of_nat a.
Proof.
  intros Hb. rewrite div_nat_eq.
  apply Qle_shift_div_r; [now apply of_nat_pos|].
  assert (1 <= of_nat b) as H1.
  { change 1 with (of_nat 1). apply of_nat_le. lia. }
  pose proof (of_nat_nonneg a) as H0. nra.
Qed.

(** X3: the entries of the feature vector are bounded by the text: there
    are at most as many tokens as characters and at least one sentence
    segment; vocabulary richness and punctuation density lie in [0,1]; and
    when the text has a token, the average word length is a number between
    1 and the length of the text and the vocabulary richness is positive. *)
Theorem extract_features_bounds (text : str) :
  exists word_count char_count sentence_count avg_word_length
         vocabulary_richness punctuation_density,
    extract_features text =
      [ fin (of_nat word_count); fin (of_nat char_count);
        fin (of_nat sentence_count); avg_word_length;
        fin vocabulary_richness; fin punctuation_density ] /\
    char_count = length text /\
    (word_count <= char_count)%nat /\
    (1 <= sentence_count <= char_count + 1)%nat /\
    0 <= vocabulary_richness <= 1 /\
    0 <= punctuation_density <= 1 /\
    (word_count <> 0%nat ->
     0 < vocabulary_richness /\
     exists a, avg_word_length = fin a /\ 1 <= a <= of_nat char_count).
Proof.
  unfold extract_features. do 6 eexists. split; [reflexivity|].
  split; [reflexivity|].
  split; [apply split_count_le|].
  split; [apply re_split_runs_count|].
  pose proof (split_from_tokens [] text) as Htok. fold (split text) in Htok.
  pose proof (split_sum_le text) as Hsum.
  pose proof (tokens_count_le_sum _ Htok) as Hcnt.
  pose proof (len_set_le (split text)) as Hset.
  split; [|split].
  - destruct (0 <? length (split text))%nat eqn:E.
    + apply Nat.ltb_lt in E.
      split; [now apply div_nat_nonneg | now apply div_nat_le_1].
    + split; [apply Qle_refl | discriminate].
  - destruct (0 <? length text)%nat eqn:E.
    + apply Nat.ltb_lt in E. split; [now apply div_nat_nonneg|].
      apply div_nat_le_1; [exact E|].
      unfold re_findall. rewrite length_map. apply filter_length_le.
    + split; [apply Qle_refl | discriminate].
  - intros Hwc.
    assert (0 < length (split text))%nat as Hpos by lia.
    apply Nat.ltb_lt in Hpos as E. rewrite E. apply Nat.ltb_lt in E.
    split.
    + apply div_nat_pos; [|exact E]. apply len_set_pos.
      intros H. rewrite H in Hwc. now apply Hwc.
    + exists (div_nat (list_sum (map (@length ascii) (split text)))
                      (length (split text))).
      split.
      * unfold np_mean. rewrite length_map.
        destruct (split text); [now contradiction Hwc | reflexivity].
      * split; [now apply div_nat_ge_1|].
        eapply Qle_trans; [now apply div_nat_le_num|]. now apply of_nat_le.
Qed.

Lemma features_nan_without_token (text : str) :
  split text = [] -> In nan (extract_features text).
Proof.
  intros H. unfold extract_features. rewrite H. simpl. auto.
Qed.

(** X4: the feature vector holds [nan] exactly when the text has no token,
    that is when it is empty or made of whitespace only. *)
Theorem extract_features_nan (text : str) :
  In nan (extract_features text) <-> forallb isspace text = true.
Proof.
  rewrite <- word_count_zero. unfold extract_features, np_mean. split.
  - intros H. simpl in H.
    destruct H as [H | [H | [H | [H | [H | [H | []]]]]]]; try discriminate.
    destruct (map (@length ascii) (split text)) eqn:E; [|discriminate].
    apply map_eq_nil in E. now rewrite E.
  - intros H. apply length_zero_iff_nil in H. rewrite H. simpl. auto.
Qed.

(** X5: the length guard of [detect_plagiarism] looks at the raw text, so
    it lets pass a text of ten or more characters that the normalizer
    deletes, with or without whitespace between them; the features that
    go to the classifier then hold [nan]. *)
Theorem guard_lets_nan_through (text : str) :
  forallb (fun c => is_special c || isspace c) text = true ->
  (10 <= length (strip text))%nat ->
  too_short text = false /\
  In nan (extract_features (preprocess_text text)).
Proof.
  intros Hall Hlen. split.
  - unfold too_short. destruct text as [|c text]; [simpl in Hlen; lia|].
    apply Nat.ltb_ge. exact Hlen.
  - apply features_nan_without_token, split_all_space.
    now apply preprocess_text_blank_only.
Qed.

End FeatureBounds.

Section Rounding.

Lemma py_round2_cases (x : Q) :
  exists k : Z,
    py_round2 x == inject_Z k / 100 /\
    (k = Qfloor (x * 100) \/ k = (Qfloor (x * 100) + 1)%Z) /\
    x * 100 - (1 # 2) <= inject_Z k <= x * 100 + (1 # 2).
Proof.
  unfold py_round2.
  pose proof (Qfloor_le (x * 100)) as Hlo.
  pose proof (Qlt_floor (x * 100)) as Hhi.
  rewrite inject_Z_plus in Hhi. change (inject_Z 1) with 1 in Hhi.
  set (n := Qfloor (x * 100)) in *.
  destruct (Qltb (1 # 2) (x * 100 - inject_Z n)) eqn:E1.
  - exists (n + 1)%Z. split; [apply Qred_correct|]. split; [now right|].
    apply Qltb_true in E1. rewrite inject_Z_plus.
    change (inject_Z 1) with 1. split; lra.
  - apply Qltb_false in E1.
    destruct (Qltb (x * 100 - inject_Z n) (1 # 2)) eqn:E2.
    + exists n. split; [apply Qred_correct|]. split; [now left|].
      apply Qltb_true in E2. split; lra.
    + apply Qltb_false in E2.
      destruct (Z.odd n).
      * exists (n + 1)%Z. split; [apply Qred_correct|]. split; [now right|].
        rewrite inject_Z_plus. change (inject_Z 1) with 1. split; lra.
      * exists n. split; [apply Qred_correct|]. split; [now left|].
        split; lra.
Qed.

Lemma py_round2_error (x : Q) :
  x - (1 # 200) <= py_round2 x <= x + (1 # 200).
Proof.
  destruct (py_round2_cases x) as (k & -> & _ & H1 & H2).
  unfold Qdiv. change (/ 100) with (1 # 100). split; lra.
Qed.

Lemma py_round2_range (x : Q) :
  0 <= x <= 100 -> 0 <= py_round2 x <= 100.
Proof.
  intros [H0 H100].
  destruct (py_round2_cases x) as (k & -> & Hk & H1 & H2).
  assert (0 <= k <= 10000)%Z as [Hk0 Hk1].
  { pose proof (Qfloor_le (x * 100)) as Hlo.
    assert (0 <= Qfloor (x * 100))%Z as Hn0.
    { change 0%Z with (Qfloor 0). apply Qfloor_resp_le. lra. }
    assert (inject_Z k < inject_Z 10001) as Hlt.
    { change (inject_Z 10001) with 10001. lra. }
    rewrite <- Zlt_Qlt in Hlt. destruct Hk as [-> | ->]; lia. }
  rewrite Zle_Qle in Hk0, Hk1.
  change (inject_Z 0) with 0 in Hk0. change (inject_Z 10000) with 10000 in Hk1.
  unfold Qdiv. change (/ 100) with (1 # 100). split; lra.
Qed.

End Rounding.

Section Stability.

Lemma collapse_fixed (b : bool) (s : str) :
  (b = true -> match s with [] => True | c :: _ => isspace c = false end) ->
  no_ws_run s = true ->
  Forall (fun c => isspace c = true -> c = blank) s ->
  re_sub_runs isspace blank b s = s.
Proof.
  revert b. induction s as [|c s IH]; intros b Hb Hrun Hblank; [reflexivity|].
  inversion Hblank as [|c' s' Hc Hs]; subst.
  cbn [re_sub_runs]. destruct (isspace c) eqn:E.
  - destruct b; [specialize (Hb eq_refl); congruence|].
    rewrite (Hc eq_refl). f_equal. apply IH; [|  |exact Hs].
    + intros _. destruct s as [|d s]; [exact I|].
      cbn [no_ws_run] in Hrun. rewrite E in Hrun.
      destruct (isspace d); [discriminate | reflexivity].
    + destruct s as [|d s]; [reflexivity|].
      cbn [no_ws_run] in Hrun. now apply andb_prop in Hrun.
  - f_equal. apply IH; [discriminate| |exact Hs].
    now rewrite (no_ws_run_cons c s E) in Hrun.
Qed.

Lemma preprocess_text_fixed (s : str) :
  normalized s ->
  Forall (fun c => isspace c = true -> c = blank) s ->
  preprocess_text s = s.
Proof.
  intros (Hlow & Htrim & Hrun & Hkept) Hblank. unfold preprocess_text.
  rewrite Htrim, collapse_fixed, re_delete_kept; auto. discriminate.
Qed.

Lemma preprocess_text_normalized_of_kept (text : str) :
  only_kept text = true -> normalized (preprocess_text text).
Proof.
  intros H. unfold normalized.
  split; [apply preprocess_text_lower|].
  split; [|split; [|apply preprocess_text_only_kept]];
    rewrite (preprocess_text_of_kept _ H); unfold lower.
  - apply stripped_trimmed, stripped_map; [exact isspace_lower_char|].
    apply collapse_stripped, strip_stripped.
  - rewrite (no_ws_run_map _ _ isspace_lower_char).
    exact (collapse_no_ws_run false (strip text)).
Qed.


End Stability.

Section ScoringBounds.

Context {SVC : Type}
        (svc_predict_proba :
           SVC -> list (list float) -> result (list (list Q)))
        {tfidf_fit row : Type}
        (tfidf_fit_transform :
           tfidf_params -> list str -> result (tfidf_fit * list row))
        (cosine : row -> row -> Q).

Local Abbreviation world := (world SVC tfidf_fit).
Local Abbreviation probability :=
  (svm_probability (tfidf_fit := tfidf_fit) svc_predict_proba).
Local Abbreviation similarity :=
  (calculate_similarity_score (SVC := SVC) tfidf_fit_transform cosine).
Local Abbreviation score :=
  (detect_plagiarism svc_predict_proba tfidf_fit_transform cosine).
Local Abbreviation report :=
  (get_detailed_report svc_predict_proba tfidf_fit_transform cosine).

Lemma score_in_range (text : str) (w w' : world) (v : Q) :
  (forall m X proba,
     svc_predict_proba m X = Ok proba ->
     Forall (Forall (fun q => 0 <= q <= 1)) proba) ->
  (forall x y, 0 <= cosine x y <= 1) ->
  score text w = (Ok v, w') -> 0 <= v <= 100.
Proof.
  intros Hproba Hcos Hv. destruct (too_short text) eqn:Hshort.
  - unfold detect_plagiarism in Hv. rewrite Hshort in Hv.
    injection Hv as <- _. split; discriminate.
  - destruct (score_steps svc_predict_proba tfidf_fit_transform cosine
                text w Hshort) as (p & s & w1 & Hp & Hs & _ & E).
    rewrite E in Hv. injection Hv as <- _.
    pose proof (probability_range _ _ _ _ _ Hproba Hp) as [Hp0 _].
    pose proof (similarity_range _ _ _ _ _ _ Hcos Hs) as [Hs0 _].
    split; [|apply py_min_le].
    apply py_min_ge; [lra | discriminate].
Qed.

(** X7: the two scores of a report are rounded to hundredths: the
    plagiarism score of the report is a multiple of 0.01 within 0.005 of
    the value of [detect_plagiarism], and both scores of the report lie in
    [0,100].  The classifier is assumed to give probabilities and the
    cosine kernel values of [0,1]. *)
Theorem report_scores_rounded (text : str) (w : world) :
  (forall m X proba,
     svc_predict_proba m X = Ok proba ->
     Forall (Forall (fun q => 0 <= q <= 1)) proba) ->
  (forall x y, 0 <= cosine x y <= 1) ->
  exists v w1 r w2,
    score text w = (Ok v, w1) /\
    report text w = (Ok r, w2) /\
    v - (1 # 200) <= plagiarism_score r <= v + (1 # 200) /\
    (exists k : Z, plagiarism_score r == inject_Z k / 100) /\
    0 <= plagiarism_score r <= 100 /\
    0 <= similarity_score r <= 100.
Proof.
  intros Hproba Hcos.
  destruct (report_steps svc_predict_proba tfidf_fit_transform cosine text w)
    as (v & w1 & s & w2 & Hv & Hs & _ & Hr).
  exists v, w1. eexists. exists w2.
  split; [exact Hv|]. split; [exact Hr|]. simpl.
  split; [apply py_round2_error|].
  split.
  { destruct (py_round2_cases v) as (k & Hk & _). now exists k. }
  split.
  - apply py_round2_range. exact (score_in_range _ _ _ _ Hproba Hcos Hv).
  - apply py_round2_range.
    pose proof (similarity_range _ _ _ _ _ _ Hcos Hs) as [H0 H1].
    split; lra.
Qed.


End ScoringBounds.

Section Store.

Context {SVC : Type} (svc_new : SVC)
        (svc_fit : SVC -> list (list float) -> list Z -> SVC)
        (svc_predict_proba :
           SVC -> list (list float) -> result (list (list Q)))
        (train_test_split :
           list (list float) -> list Z ->
           (list (list float) * list (list float)) * (list Z * list Z))
        {tfidf_fit row : Type}
        (tfidf_fit_transform :
           tfidf_params -> list str -> result (tfidf_fit * list row))
        (cosine : row -> row -> Q).

Local Abbreviation world := (world SVC tfidf_fit).
Local Abbreviation score :=
  (detect_plagiarism svc_predict_proba tfidf_fit_transform cosine).
Local Abbreviation report :=
  (get_detailed_report svc_predict_proba tfidf_fit_transform cosine).
Local Abbreviation new_detector :=
  (init svc_new svc_fit train_test_split (tfidf_fit := tfidf_fit)).
Local Abbreviation serve_all :=
  (serve_all svc_predict_proba tfidf_fit_transform cosine).
Local Abbreviation serve :=
  (serve svc_predict_proba tfidf_fit_transform cosine).

Lemma in_sync_same_but_fit (w w' : world) :
  same_but_fit w w' -> in_sync w -> in_sync w'.
Proof.
  intros ((Hm & Hp & Hr) & Hpath & _ & _ & Hd & _) (data & H & H1 & H2 & H3).
  exists data. rewrite <- Hpath, <- Hd, <- Hm, <- Hp, <- Hr. auto.
Qed.

Lemma add_reference_text_sync (text : str) (w : world) :
  in_sync w ->
  exists w',
    add_reference_text text w = (Ok tt, w') /\
    in_sync w' /\ model_path (self w') = model_path (self w).
Proof.
  intros Hsync. unfold add_reference_text, save_model. unfold_method.
  destruct (in_dec str_eq_dec _ _) as [Hin | Hnot].
  - exists w. auto.
  - eexists. split; [reflexivity|]. split; [|reflexivity].
    eexists. simpl. rewrite String.eqb_refl. split; [reflexivity|].
    simpl. auto.
Qed.

Lemma serve_sync (r : request) (w : world) :
  in_sync w ->
  exists w',
    serve r w = (Ok tt, w') /\
    in_sync w' /\ model_path (self w') = model_path (self w).
Proof.
  intros Hsync. destruct r as [text | text | text]; simpl.
  - destruct (score_total svc_predict_proba tfidf_fit_transform cosine text w)
      as (v & w' & E & Hw).
    exists w'. unfold bind, ret. rewrite E.
    split; [reflexivity|]. split; [exact (in_sync_same_but_fit _ _ Hw Hsync)|].
    symmetry. apply Hw.
  - destruct (report_steps svc_predict_proba tfidf_fit_transform cosine text w)
      as (v & w1 & s & w' & _ & _ & Hw & E).
    exists w'. unfold bind, ret. rewrite E.
    split; [reflexivity|]. split; [exact (in_sync_same_but_fit _ _ Hw Hsync)|].
    symmetry. apply Hw.
  - now apply add_reference_text_sync.
Qed.

Lemma serve_all_sync (rs : list request) (w : world) :
  in_sync w ->
  exists w',
    serve_all rs w = (Ok tt, w') /\
    in_sync w' /\ model_path (self w') = model_path (self w).
Proof.
  revert w. induction rs as [|r rs IH]; intros w Hsync.
  - exists w. auto.
  - destruct (serve_sync r w Hsync) as (w1 & E1 & Hs1 & Hp1).
    destruct (IH w1 Hs1) as (w2 & E2 & Hs2 & Hp2).
    exists w2. simpl. unfold bind.
    rewrite E1. split; [exact E2|]. split; [exact Hs2 | congruence].
Qed.

Lemma train_model_sync (w : world) :
  exists w',
    train_model svc_fit train_test_split w = (Ok tt, w') /\
    in_sync w' /\
    model_path (self w') = model_path (self w) /\
    vectorizer (self w') = vectorizer (self w) /\
    reference_texts (self w') =
      map preprocess_text (fst generate_training_data).
Proof.
  unfold train_model.
  destruct generate_training_data as [texts labels].
  destruct (train_test_split _ _) as [[X_train X_test] [y_train y_test]].
  unfold save_model. unfold_method. simpl.
  eexists. split; [reflexivity|]. simpl.
  split; [|auto].
  eexists. simpl. rewrite String.eqb_refl. split; [reflexivity|].
  simpl. auto.
Qed.

Lemma init_found (path : string) (w : world)
      (data : model_data SVC tfidf_fit) :
  disk w path = Some data ->
  exists w',
    new_detector path w = (Ok tt, w') /\
    in_sync w' /\
    model_path (self w') = path /\
    disk w' = disk w /\
    svm_model (self w') = md_svm_model data /\
    vectorizer (self w') = md_vectorizer data /\
    reference_texts (self w') = md_reference_texts data.
Proof.
  intros Hd. unfold init, bind, modify.
  erewrite load_or_create_found by (simpl; exact Hd).
  eexists. split; [reflexivity|]. simpl.
  split; [|auto 6]. exists data. simpl. auto.
Qed.

Lemma init_missing (path : string) (w : world) :
  disk w path = None ->
  exists w',
    new_detector path w = (Ok tt, w') /\
    in_sync w' /\
    model_path (self w') = path /\
    reference_texts (self w') =
      map preprocess_text (fst generate_training_data).
Proof.
  intros Hd. unfold init, bind, modify.
  rewrite load_or_create_missing by (simpl; exact Hd).
  match goal with |- context [train_model _ _ ?w0] =>
    destruct (train_model_sync w0) as (w' & Et & Hs & Hp & _ & Hr)
  end.
  exists w'. simpl in Hp. auto.
Qed.

Lemma init_sync (path : string) (w : world) :
  exists w',
    new_detector path w = (Ok tt, w') /\
    in_sync w' /\ model_path (self w') = path.
Proof.
  destruct (disk w path) as [data|] eqn:Hd.
  - destruct (init_found path w data Hd) as (w' & E & Hs & Hp & _).
    now exists w'.
  - destruct (init_missing path w Hd) as (w' & E & Hs & Hp & _).
    now exists w'.
Qed.



End Store.

Section KnownTexts.

Context {SVC : Type}
        (svc_predict_proba :
           SVC -> list (list float) -> result (list (list Q)))
        {tfidf_fit row : Type}
        (tfidf_fit_transform :
           tfidf_params -> list str -> result (tfidf_fit * list row))
        (cosine : row -> row -> Q).

Local Abbreviation world := (world SVC tfidf_fit).
Local Abbreviation probability :=
  (svm_probability (tfidf_fit := tfidf_fit) svc_predict_proba).
Local Abbreviation similarity :=
  (calculate_similarity_score (SVC := SVC) tfidf_fit_transform cosine).
Local Abbreviation score :=
  (detect_plagiarism svc_predict_proba tfidf_fit_transform cosine).
Local Abbreviation reset_plagiarism_scores_loop :=
  (reset_plagiarism_scores_loop svc_predict_proba tfidf_fit_transform cosine).
Local Abbreviation reset_plagiarism_scores :=
  (reset_plagiarism_scores svc_predict_proba tfidf_fit_transform cosine).


(** The loop of the batch recalculation, started with a list of updates
    and a count, in any state that has the model of [w]. *)
Lemma reset_loop_spec (submissions : list (Z * str)) (w w1 : world)
      (updates : list (Q * Z)) (count : nat) :
  same_but_fit w w1 ->
  exists added w',
    reset_plagiarism_scores_loop submissions updates count w1
      = (Ok (updates ++ added, (count + length added)%nat), w') /\
    same_but_fit w w' /\
    Forall2 (fun sub upd =>
               snd upd = fst sub /\ fst (score (snd sub) w) = Ok (fst upd))
            (filter (fun sub => negb (Nat.eqb (length (snd sub)) 0))
                    submissions)
            added.
Proof.
  revert w1 updates count.
  induction submissions as [|[id content] rest IH]; intros w1 updates count Hw.
  - exists [], w1. simpl. unfold ret. rewrite app_nil_r, Nat.add_0_r.
    split; [reflexivity|]. split; [exact Hw | constructor].
  - destruct content as [|ch content].
    + destruct (IH w1 updates count Hw) as (added & w' & E & Hw' & Hall).
      exists added, w'. simpl. auto.
    + cbn [reset_plagiarism_scores_loop].
      destruct (score_total svc_predict_proba tfidf_fit_transform cosine
                  (ch :: content) w1) as (v & w2 & Ev & Hw2).
      pose proof (same_but_fit_trans _ _ _ Hw Hw2) as Hw12.
      destruct (IH w2 (updates ++ [(v, id)]) (S count) Hw12)
        as (added & w' & E & Hw' & Hall).
      exists ((v, id) :: added), w'.
      simpl. unfold bind. rewrite Ev, E.
      split.
      { rewrite <- app_assoc. simpl. do 3 f_equal. lia. }
      split; [exact Hw'|].
      constructor; [|exact Hall]. simpl. split; [reflexivity|].
      rewrite (score_same_model svc_predict_proba tfidf_fit_transform cosine
                 (ch :: content) w w1 (same_but_fit_model _ _ Hw)).
      now rewrite Ev.
Qed.

(** X12: the batch recalculation of the administrator never raises.  It
    issues one update per fetched row with a content that is not empty, in
    the order of the rows, with the row's id and with the score that
    [detect_plagiarism] gives the content in the state before the batch:
    the refits of the vectorizer along the way change no score.  It
    counts these updates and leaves corpus, classifier and disk as they
    were. *)
Theorem reset_plagiarism_scores_spec (submissions : list (Z * str))
        (w : world) :
  exists updates w',
    reset_plagiarism_scores submissions w
      = (Ok (updates, length updates), w') /\
    same_but_fit w w' /\
    Forall2 (fun sub upd =>
               snd upd = fst sub /\ fst (score (snd sub) w) = Ok (fst upd))
            (filter (fun sub => negb (Nat.eqb (length (snd sub)) 0))
                    submissions)
            updates.
Proof.
  destruct (reset_loop_spec submissions w w [] 0 (same_but_fit_refl w))
    as (added & w' & E & Hw & Hall).
  exists added, w'. split; [exact E|]. auto.
Qed.

End KnownTexts.

(** * File names *)

Section FileNames.

Import FileProcessor.

Lemma contains_false (c : ascii) (s : str) :
  contains c s = false <-> ~ In c s.
Proof.
  unfold contains. split.
  - intros H Hin. assert (existsb (Ascii.eqb c) s = true) as E.
    { apply existsb_exists. exists c. split; [exact Hin|].
      apply Ascii.eqb_refl. }
    congruence.
  - intros H. destruct (existsb (Ascii.eqb c) s) eqn:E; [|reflexivity].
    apply existsb_exists in E. destruct E as (x & Hx & Ex).
    apply Ascii.eqb_eq in Ex. subst. contradiction.
Qed.

Lemma break_first_none (sep : ascii) (s : str) :
  contains sep s = false -> break_first sep s = None.
Proof.
  unfold contains. induction s as [|c s IH]; simpl; [reflexivity|].
  intros H. apply orb_false_elim in H. destruct H as [Hc Hs].
  rewrite Ascii.eqb_sym, Hc. now rewrite IH.
Qed.

Lemma break_first_app (sep : ascii) (a b : str) :
  contains sep a = false -> break_first sep (a ++ sep :: b) = Some (a, b).
Proof.
  unfold contains. induction a as [|c a IH]; simpl.
  - now rewrite Ascii.eqb_refl.
  - intros H. apply orb_false_elim in H. destruct H as [Hc Ha].
    rewrite Ascii.eqb_sym, Hc. now rewrite IH.
Qed.

Lemma contains_rev (c : ascii) (s : str) : contains c (rev s) = contains c s.
Proof.
  unfold contains. induction s as [|x s IH]; [reflexivity|].
  simpl. rewrite existsb_app, IH. simpl. rewrite orb_false_r. apply orb_comm.
Qed.

(** Every string with a [sep] splits at its last [sep]. *)
Lemma last_sep (sep : ascii) (s : str) :
  contains sep s = true ->
  exists base ext, s = base ++ sep :: ext /\ contains sep ext = false.
Proof.
  unfold contains. induction s as [|c s IH]; [discriminate|].
  simpl. destruct (existsb (Ascii.eqb sep) s) eqn:E.
  - intros _. destruct (IH eq_refl) as (base & ext & -> & Hext).
    now exists (c :: base), ext.
  - rewrite orb_false_r. intros Hc. apply Ascii.eqb_eq in Hc. subst c.
    now exists [], s.
Qed.

Lemma rsplit1_last (sep : ascii) (base ext : str) :
  contains sep ext = false -> rsplit1 sep (base ++ sep :: ext) = [base; ext].
Proof.
  intros H. unfold rsplit1.
  rewrite rev_app_distr. simpl. rewrite <- app_assoc. simpl.
  rewrite break_first_app by now rewrite contains_rev.
  now rewrite !rev_involutive.
Qed.

(** X13: [allowed_file] and [get_file_type] never raise.  The type of a
    file name is the lower-cased text after its last dot, and the empty
    string when it has no dot; a file name is allowed exactly when its type
    is one of the eleven extensions, so a name without a dot or ending in
    a dot is refused and the case of the extension does not matter. *)
Theorem allowed_file_spec (filename : str) :
  (exists t,
     get_file_type filename = Ok t /\
     allowed_file filename = Ok (mem t allowed_extensions)) /\
  (contains dot filename = false ->
   get_file_type filename = Ok [] /\ allowed_file filename = Ok false) /\
  (forall base ext,
     filename = base ++ dot :: ext ->
     contains dot ext = false ->
     get_file_type filename = Ok (lower ext) /\
     allowed_file filename = Ok (mem (lower ext) allowed_extensions) /\
     allowed_file (base ++ dot :: lower ext) = allowed_file filename /\
     (ext = [] -> allowed_file filename = Ok false)).
Proof.
  assert (forall base ext,
            contains dot ext = false ->
            get_file_type (base ++ dot :: ext) = Ok (lower ext) /\
            allowed_file (base ++ dot :: ext)
            = Ok (mem (lower ext) allowed_extensions)) as Hdot.
  { intros base ext Hext. unfold get_file_type, allowed_file.
    assert (contains dot (base ++ dot :: ext) = true) as ->.
    { unfold contains. rewrite existsb_app. cbn [existsb].
      rewrite Ascii.eqb_refl. apply orb_true_r. }
    now rewrite (rsplit1_last dot base ext Hext). }
  assert (contains dot filename = false ->
          get_file_type filename = Ok [] /\ allowed_file filename = Ok false)
    as Hnodot.
  { intros H. unfold get_file_type, allowed_file. now rewrite H. }
  split; [|split; [exact Hnodot|]].
  - destruct (contains dot filename) eqn:E.
    + destruct (last_sep dot filename E) as (base & ext & -> & Hext).
      exists (lower ext). now apply Hdot.
    + exists []. now apply Hnodot.
  - intros base ext -> Hext. destruct (Hdot base ext Hext) as [Ht Ha].
    split; [exact Ht|]. split; [exact Ha|]. split.
    + assert (contains dot (lower ext) = false) as Hl.
      { apply contains_false. intros Hin. unfold lower in Hin.
        apply in_map_iff in Hin. destruct Hin as (x & Hx & Hin).
        apply (proj1 (contains_false dot ext) Hext).
        destruct x as [[] [] [] [] [] [] [] []]; vm_compute in Hx;
          try discriminate; exact Hin. }
      destruct (Hdot base (lower ext) Hl) as [_ ->].
      now rewrite Ha, lower_idem.
    + intros ->. exact Ha.
Qed.

Lemma replace_char_In (old new x : ascii) (s : str) :
  In x (replace_char old new s) -> x = new \/ (In x s /\ x <> old).
Proof.
  unfold replace_char. intros H. apply in_map_iff in H.
  destruct H as (y & Hy & Hin). destruct (Ascii.eqb y old) eqn:E.
  - now left.
  - right. subst. split; [exact Hin|]. now apply Ascii.eqb_neq.
Qed.

Lemma replace_all_In (cs : str) (x : ascii) (s : str) :
  In x (fold_left (fun f c => replace_char c underscore f) cs s) ->
  x = underscore \/ (In x s /\ ~ In x cs).
Proof.
  revert s. induction cs as [|c cs IH]; intros s; simpl.
  - intros H. right. auto.
  - intros H. destruct (IH _ H) as [-> | [Hin Hcs]]; [now left|].
    destruct (replace_char_In _ _ _ _ Hin) as [-> | [Hs Hc]]; [now left|].
    right. split; [exact Hs|]. intros [E | E]; [congruence | contradiction].
Qed.

Lemma replace_all_length (cs : str) (s : str) :
  length (fold_left (fun f c => replace_char c underscore f) cs s) = length s.
Proof.
  revert s. induction cs as [|c cs IH]; intros s; simpl; [reflexivity|].
  rewrite IH. apply length_map.
Qed.

Lemma replace_char_absent (old new : ascii) (s : str) :
  ~ In old s -> replace_char old new s = s.
Proof.
  unfold replace_char. induction s as [|c s IH]; simpl; [reflexivity|].
  intros H. rewrite IH by tauto.
  destruct (Ascii.eqb c old) eqn:E; [|reflexivity].
  apply Ascii.eqb_eq in E. subst. tauto.
Qed.

Lemma replace_all_absent (cs : str) (s : str) :
  (forall c, In c cs -> ~ In c s) ->
  fold_left (fun f c => replace_char c underscore f) cs s = s.
Proof.
  induction cs as [|c cs IH]; simpl; [reflexivity|].
  intros H. rewrite replace_char_absent by (apply H; now left).
  apply IH. intros x Hx. apply H. now right.
Qed.

Lemma rfind_from_absent (i last : Z) (c : ascii) (s : str) :
  ~ In c s -> rfind_from i last c s = last.
Proof.
  revert i last. induction s as [|x s IH]; intros i last H; [reflexivity|].
  simpl. destruct (Ascii.eqb x c) eqn:E.
  - apply Ascii.eqb_eq in E. subst. exfalso. apply H. now left.
  - apply IH. intros Hin. apply H. now right.
Qed.

Lemma rfind_from_lower (i last : Z) (c : ascii) (s : str) :
  (-1 <= last)%Z -> (0 <= i)%Z -> (-1 <= rfind_from i last c s)%Z.
Proof.
  revert i last. induction s as [|x s IH]; intros i last Hl Hi; [exact Hl|].
  simpl. apply IH; [|lia]. destruct (Ascii.eqb x c); lia.
Qed.

Lemma splitext_generic_parts (p : str) (sep : ascii) (altsep : option ascii)
      (extsep : ascii) :
  fst (splitext_generic p sep altsep extsep)
  ++ snd (splitext_generic p sep altsep extsep) = p.
Proof.
  unfold splitext_generic.
  destruct (_ <? _)%Z; [|apply app_nil_r].
  destruct (existsb _ _); [apply firstn_skipn | apply app_nil_r].
Qed.

Lemma splitext_no_dot (p : str) :
  ~ In dot p -> splitext p = (p, []).
Proof.
  intros H. unfold splitext, splitext_generic.
  unfold rfind at 2. rewrite (rfind_from_absent _ _ _ _ H).
  pose proof (rfind_from_lower 0 (-1) "/"%char p) as Hs.
  fold (rfind "/"%char p) in Hs.
  destruct (rfind "/"%char p <? -1)%Z eqn:E; [|reflexivity].
  apply Z.ltb_lt in E. lia.
Qed.

(** On a name without a separator the two variants of [os.path.splitext]
    agree. *)
Lemma splitext_nt_agrees (p : str) :
  ~ In "/"%char p -> ~ In (chr 92) p -> splitext_nt p = splitext p.
Proof.
  intros H1 H2. unfold splitext_nt, splitext, splitext_generic.
  assert (rfind "/"%char p = (-1)%Z) as ->
    by exact (rfind_from_absent _ _ _ _ H1).
  assert (rfind (chr 92) p = (-1)%Z) as ->
    by exact (rfind_from_absent _ _ _ _ H2).
  reflexivity.
Qed.

Lemma replace_unsafe_safe (filename : str) (x : ascii) :
  In x (replace_unsafe filename) -> ~ In x unsafe_chars.
Proof.
  intros H. destruct (replace_all_In _ _ _ H) as [-> | [_ Hx]]; [|exact Hx].
  vm_compute. intuition discriminate.
Qed.

(** [clean_filename] splits a name that holds no separator any more, so
    it behaves alike under both variants of [os.path]. *)
Lemma clean_filename_splitext_nt (filename : str) :
  splitext_nt (replace_unsafe filename) = splitext (replace_unsafe filename).
Proof.
  apply splitext_nt_agrees; intros H;
    apply (replace_unsafe_safe filename _ H); vm_compute; tauto.
Qed.

(** X14: [clean_filename] returns a name without any of the nine unsafe
    characters and no longer than its argument: the part before the
    extension is cut to 100 characters and the extension is kept whole.
    A name without a dot comes out with at most 100 characters, and a
    name of at most 100 characters without unsafe characters comes out
    unchanged. *)
Theorem clean_filename_spec (filename : str) :
  (forall c, In c (clean_filename filename) -> ~ In c unsafe_chars) /\
  (length (clean_filename filename) <= length filename)%nat /\
  (exists name ext,
     splitext (replace_unsafe filename) = (name, ext) /\
     name ++ ext = replace_unsafe filename /\
     clean_filename filename = firstn 100 name ++ ext) /\
  (~ In dot filename -> (length (clean_filename filename) <= 100)%nat) /\
  ((forall c, In c unsafe_chars -> ~ In c filename) ->
   (length filename <= 100)%nat ->
   clean_filename filename = filename).
Proof.
  pose proof (splitext_generic_parts (replace_unsafe filename) "/"%char
                None dot) as Hparts.
  fold (splitext (replace_unsafe filename)) in Hparts.
  assert (clean_filename filename
          = firstn 100 (fst (splitext (replace_unsafe filename)))
            ++ snd (splitext (replace_unsafe filename))) as Hclean.
  { unfold clean_filename.
    destruct (splitext (replace_unsafe filename)) as [name ext].
    cbn [fst snd].
    destruct (100 <? length name)%nat eqn:E; [reflexivity|].
    apply Nat.ltb_ge in E. now rewrite firstn_all2. }
  destruct (splitext (replace_unsafe filename)) as [name ext] eqn:Hsplit.
  cbn [fst snd] in Hparts, Hclean.
  assert (length (replace_unsafe filename) = length filename) as Hlen
    by apply replace_all_length.
  split; [|split; [|split; [|split]]].
  - intros c Hc. apply (replace_unsafe_safe filename).
    rewrite <- Hparts. rewrite Hclean in Hc.
    apply in_app_or in Hc. apply in_or_app.
    destruct Hc as [Hc | Hc]; [left | now right].
    rewrite <- (firstn_skipn 100 name). apply in_or_app. now left.
  - rewrite Hclean, <- Hlen, <- Hparts, !length_app.
    rewrite length_firstn. lia.
  - now exists name, ext.
  - intros Hdot.
    assert (~ In dot (replace_unsafe filename)) as Hdot'.
    { intros H. destruct (replace_all_In _ _ _ H) as [E | [Hin _]];
        [discriminate | contradiction]. }
    rewrite (splitext_no_dot _ Hdot') in Hsplit.
    injection Hsplit as <- <-.
    rewrite Hclean, app_nil_r. apply firstn_le_length.
  - intros Hsafe Hshort.
    assert (replace_unsafe filename = filename) as E
      by now apply replace_all_absent.
    rewrite Hclean, firstn_all2; [congruence|].
    rewrite E in Hparts. rewrite <- Hparts, length_app in Hshort. lia.
Qed.

End FileNames.

Section Corpus.

Context {SVC : Type} (svc_new : SVC)
        (svc_fit : SVC -> list (list float) -> list Z -> SVC)
        (svc_predict_proba :
           SVC -> list (list float) -> result (list (list Q)))
        (train_test_split :
           list (list float) -> list Z ->
           (list (list float) * list (list float)) * (list Z * list Z))
        {tfidf_fit row : Type}
        (tfidf_fit_transform :
           tfidf_params -> list str -> result (tfidf_fit * list row))
        (cosine : row -> row -> Q).

Local Abbreviation world := (world SVC tfidf_fit).
Local Abbreviation new_detector :=
  (init svc_new svc_fit train_test_split (tfidf_fit := tfidf_fit)).
Local Abbreviation serve_all :=
  (serve_all svc_predict_proba tfidf_fit_transform cosine).
Local Abbreviation serve :=
  (serve svc_predict_proba tfidf_fit_transform cosine).

Lemma training_corpus_NoDup :
  NoDup (map preprocess_text (fst generate_training_data)).
Proof.
  assert (nodup str_eq_dec (map preprocess_text (fst generate_training_data))
          = map preprocess_text (fst generate_training_data)) as <-
    by (vm_compute; reflexivity).
  apply NoDup_nodup.
Qed.

Lemma add_reference_text_grows (text : str) (w : world) :
  exists w' tail,
    add_reference_text text w = (Ok tt, w') /\
    reference_texts (self w') = reference_texts (self w) ++ tail /\
    (NoDup (reference_texts (self w)) -> NoDup (reference_texts (self w'))).
Proof.
  unfold add_reference_text, save_model. unfold_method.
  destruct (in_dec str_eq_dec _ _) as [Hin | Hnot].
  - exists w, []. rewrite app_nil_r. auto.
  - eexists. exists [preprocess_text text]. split; [reflexivity|].
    simpl. split; [reflexivity|].
    intros Hnd. apply NoDup_app; [exact Hnd | repeat constructor; auto |].
    intros x Hx [<- | []]. contradiction.
Qed.

Lemma serve_grows (r : request) (w : world) :
  exists w' tail,
    serve r w = (Ok tt, w') /\
    reference_texts (self w') = reference_texts (self w) ++ tail /\
    (NoDup (reference_texts (self w)) -> NoDup (reference_texts (self w'))).
Proof.
  destruct r as [text | text | text]; simpl.
  - destruct (score_total svc_predict_proba tfidf_fit_transform cosine text w)
      as (v & w' & E & (_ & _ & Hr) & _).
    exists w', []. unfold bind, ret. rewrite E, app_nil_r, <- Hr. auto.
  - destruct (report_steps svc_predict_proba tfidf_fit_transform cosine text w)
      as (v & w1 & s & w' & _ & _ & ((_ & _ & Hr) & _) & E).
    exists w', []. unfold bind, ret. rewrite E, app_nil_r, <- Hr. auto.
  - apply add_reference_text_grows.
Qed.

Lemma serve_all_grows (rs : list request) (w : world) :
  exists w' tail,
    serve_all rs w = (Ok tt, w') /\
    reference_texts (self w') = reference_texts (self w) ++ tail /\
    (NoDup (reference_texts (self w)) -> NoDup (reference_texts (self w'))).
Proof.
  revert w. induction rs as [|r rs IH]; intros w.
  - exists w, []. rewrite app_nil_r. auto.
  - destruct (serve_grows r w) as (w1 & t1 & E1 & Hr1 & Hn1).
    destruct (IH w1) as (w2 & t2 & E2 & Hr2 & Hn2).
    exists w2, (t1 ++ t2). simpl. unfold bind. rewrite E1.
    split; [exact E2|]. split; [|auto].
    now rewrite Hr2, Hr1, app_assoc.
Qed.


End Corpus.

(** * The further properties on concrete inputs *)

Section MoreExamples.

Import FileProcessor.

Lemma toy_fit_transform_equal_rows (p : tfidf_params) (texts : list str)
      (f : Toy.tfidf_fit) (m : list Toy.row) :
  Toy.fit_transform p texts = Ok (f, m) ->
  length m = length texts /\
  forall i j t ri rj,
    nth_error texts i = Some t -> nth_error texts j = Some t ->
    nth_error m i = Some ri -> nth_error m j = Some rj -> ri = rj.
Proof.
  unfold Toy.fit_transform.
  destruct (concat (map split texts)); [discriminate|].
  intros [= _ <-]. split; [apply length_map|].
  intros i j t ri rj Hi Hj Hri Hrj.
  pose proof (eq_trans (eq_sym Hri) (map_nth_error split _ _ Hi)) as Ei.
  pose proof (eq_trans (eq_sym Hrj) (map_nth_error split _ _ Hj)) as Ej.
  injection Ei as ->. now injection Ej as ->.
Qed.


Lemma guard_lets_nan_through_witness :
  too_short (lit "@@ ## $$ %% ^^ &&") = false /\
  In nan (extract_features (preprocess_text (lit "@@ ## $$ %% ^^ &&"))).
Proof.
  apply (guard_lets_nan_through (lit "@@ ## $$ %% ^^ &&")).
  - reflexivity.
  - vm_compute. lia.
Defined.

Lemma report_scores_rounded_witness :
  exists r w',
    Toy.get_detailed_report (lit "The quick  brown Fox")
      (Toy.mk_world (1 # 3) [lit "the quick brown fox"; lit "hello world"])
    = (Ok r, w') /\
    0 <= plagiarism_score r <= 100 /\ plagiarism_score r = 60.
Proof.
  destruct (report_scores_rounded Toy.predict_proba Toy.fit_transform
              Toy.cosine (lit "The quick  brown Fox")
              (Toy.mk_world (1 # 3)
                 [lit "the quick brown fox"; lit "hello world"])
              toy_predict_proba_range toy_cosine_range)
    as (v & w1 & r & w2 & _ & Hr & _ & _ & Hrange & _).
  exists r, w2. split; [exact Hr|]. split; [exact Hrange|].
  unfold Toy.get_detailed_report in Hr. vm_compute in Hr.
  now injection Hr as <- _.
Defined.



Lemma allowed_file_spec_witness :
  allowed_file (lit "Essay.final.PDF") = Ok true /\
  get_file_type (lit "Essay.final.PDF") = Ok (lit "pdf") /\
  allowed_file (lit "README") = Ok false.
Proof.
  destruct (allowed_file_spec (lit "Essay.final.PDF")) as (_ & _ & H).
  destruct (H (lit "Essay.final") (lit "PDF") eq_refl eq_refl)
    as (Ht & Ha & _).
  split; [exact Ha|]. split; [exact Ht|].
  exact (proj2 (proj1 (proj2 (allowed_file_spec (lit "README"))) eq_refl)).
Defined.

Lemma clean_filename_spec_witness :
  clean_filename (lit "notes_v2.txt") = lit "notes_v2.txt" /\
  clean_filename (lit "a/b:c?.txt") = lit "a_b_c_.txt".
Proof.
  split; [|reflexivity].
  apply (clean_filename_spec (lit "notes_v2.txt")).
  - intros c Hc Hin. vm_compute in Hc, Hin.
    repeat (destruct Hc as [<- | Hc];
            [intuition discriminate|]). exact Hc.
  - vm_compute. lia.
Defined.


End MoreExamples.
